(** * Bluesky firehose aggregator: the ingestion pipeline of [bsky.py]

    A shallow embedding of [Bluesky_dashboard/aggregator/bsky/bsky.py]:
    the reconnecting [WebSocketClient], the bounded [asyncio.Queue] between
    it and the workers, and the [MessageProcessor] that decodes, filters,
    enriches and indexes every message.

    Conventions.
    - Python values are the inductive [pyval]; a [dict] is an association
      list in insertion order with unique keys.  JSON numbers are the
      integers ([json.loads] yields [int] for them); non-integer numbers are
      outside the model.
    - A call that may raise returns a [res]; code that also logs and calls
      the Elasticsearch client runs in the monad [M].
    - What the interpreter and its libraries compute ([json.loads],
      [datetime.fromtimestamp], [repr]) is the class [Runtime]; what the
      outside world answers during one message (the clock, the reply of the
      store) is the record [ambient]. *)

From Stdlib Require Import ZArith List String Ascii Bool Lia QArith DecimalString.
Import ListNotations.
Open Scope string_scope.
Open Scope list_scope.
Open Scope Z_scope.

(* ================================================================== *)
(** * Python values, exceptions, logging *)

Inductive exn : Type :=
| AttributeError | TypeError | ValueError | OverflowError | OSError
| IndexError | JSONDecodeError | UnicodeDecodeError | RecursionError
| TimeoutError | ConnectionClosedError | ConnectionError | InvalidStatus
| ApiError | OtherException
| CancelledError | KeyboardInterrupt.

(** [isinstance(e, Exception)]: [asyncio.CancelledError] and
    [KeyboardInterrupt] derive from [BaseException] only. *)
Definition is_Exception (e : exn) : bool :=
  match e with
  | CancelledError | KeyboardInterrupt => false
  | _ => true
  end.

Inductive res (A : Type) : Type :=
| Ret (a : A)
| Raise (e : exn).
Arguments Ret {A} a.
Arguments Raise {A} e.

Inductive level : Type := INFO | WARNING | ERROR.

Record log_record : Type := Log { lvl : level; text : string }.

Definition level_eqb (a b : level) : bool :=
  match a, b with
  | INFO, INFO | WARNING, WARNING | ERROR, ERROR => true
  | _, _ => false
  end.

Definition is_error (r : log_record) : bool := level_eqb (lvl r) ERROR.

(** A timezone-aware UTC [datetime], as microseconds since the epoch. *)
Definition datetime : Type := Z.

#[local] Set Warnings "-register-all".

Inductive pyval : Type :=
| PNone
| PBool (b : bool)
| PInt (n : Z)
| PStr (s : string)
| PList (xs : list pyval)
| PDict (kvs : list (string * pyval))
| PDatetime (t : datetime).

Definition pydict : Type := list (string * pyval).

(** [bool(v)] *)
Definition truthy (v : pyval) : bool :=
  match v with
  | PNone => false
  | PBool b => b
  | PInt n => negb (n =? 0)
  | PStr s => negb (s =? "")%string
  | PList xs => match xs with [] => false | _ => true end
  | PDict kvs => match kvs with [] => false | _ => true end
  | PDatetime _ => true
  end.

(** [d.get(k)] on the association list of a dict. *)
Fixpoint dict_get (k : string) (d : pydict) : option pyval :=
  match d with
  | [] => None
  | (k', v) :: d' => if (k' =? k)%string then Some v else dict_get k d'
  end.

(** [d[k] = v]: an existing key keeps its position, a new one goes last. *)
Fixpoint dict_set (k : string) (v : pyval) (d : pydict) : pydict :=
  match d with
  | [] => [(k, v)]
  | (k', v') :: d' =>
      if (k' =? k)%string then (k', v) :: d' else (k', v') :: dict_set k v d'
  end.

(** [d.get(k, default)] *)
Definition get_or (d : pydict) (k : string) (default : pyval) : pyval :=
  match dict_get k d with
  | Some v => v
  | None => default
  end.

(** [obj.get(k, default)]: only a dict has the method. *)
Definition py_get (obj : pyval) (k : string) (default : pyval) : res pyval :=
  match obj with
  | PDict d => Ret (get_or d k default)
  | _ => Raise AttributeError
  end.

(** The one-character strings of a string (its bytes here, which are its
    characters for ASCII text). *)
Fixpoint chars (s : string) : list pyval :=
  match s with
  | EmptyString => []
  | String c s' => PStr (String c EmptyString) :: chars s'
  end.

(** [iter(v)]: the elements a [for] loop over [v] visits. *)
Definition py_iter (v : pyval) : res (list pyval) :=
  match v with
  | PList xs => Ret xs
  | PStr s => Ret (chars s)
  | PDict kvs => Ret (map (fun kv => PStr (fst kv)) kvs)
  | _ => Raise TypeError
  end.

(** [v in l] for a list [l] of [str]: only an equal [str] is a member. *)
Definition py_in (v : pyval) (l : list string) : bool :=
  match v with
  | PStr s => existsb (String.eqb s) l
  | _ => false
  end.

(** Structural equality of values, the key comparison of the store. *)
Fixpoint pyval_eqb (a b : pyval) {struct a} : bool :=
  match a, b with
  | PNone, PNone => true
  | PBool x, PBool y => Bool.eqb x y
  | PInt x, PInt y => x =? y
  | PStr x, PStr y => (x =? y)%string
  | PList xs, PList ys =>
      (fix go (xs ys : list pyval) {struct xs} : bool :=
         match xs, ys with
         | [], [] => true
         | x :: xs', y :: ys' => pyval_eqb x y && go xs' ys'
         | _, _ => false
         end) xs ys
  | PDict xs, PDict ys =>
      (fix go (xs ys : pydict) {struct xs} : bool :=
         match xs, ys with
         | [], [] => true
         | (k, x) :: xs', (k', y) :: ys' =>
             (k =? k')%string && pyval_eqb x y && go xs' ys'
         | _, _ => false
         end) xs ys
  | PDatetime x, PDatetime y => x =? y
  | _, _ => false
  end.

(** What the interpreter and its libraries compute. *)
Inductive loaded : Type :=
| Loaded (v : pyval)
| LoadError (e : exn).

Inductive converted : Type :=
| Converted (t : datetime)
| ConvError (e : exn).

Class Runtime : Type := {
  (** [json.loads(message)] *)
  json_loads : string -> loaded;
  (** [datetime.fromtimestamp(n / 1_000_000, tz=timezone.utc)] for an
      [int] [n]: the true division and the conversion together. *)
  utc_fromtimestamp : Z -> converted;
  (** [str(v)] of a list, a dict or a datetime. *)
  py_repr : pyval -> string
}.

(** [f"{v}"] *)
Definition py_format `{Runtime} (v : pyval) : string :=
  match v with
  | PStr s => s
  | PInt n => NilZero.string_of_int (Z.to_int n)
  | PNone => "None"
  | PBool true => "True"
  | PBool false => "False"
  | _ => py_repr v
  end.

(* ================================================================== *)
(** * WebSocketClient *)

Module WebSocketClient.

Record t : Type := {
  urls : list string;
  current_url_index : nat;
  running : bool
}.

(** [__init__] *)
Definition init (urls : list string) : t :=
  {| urls := urls; current_url_index := 0%nat; running := true |}.

(** One use of [websockets.connect(url)]: the frames the server delivers,
    then how the connection ends; [None] is a normal close, [Some e] the
    exception the library raises (while connecting when [frames] is
    empty, while listening otherwise). *)
Record session : Type := {
  frames : list string;
  ending : option exn
}.

(** What one call leaves behind: the messages [put] on the queue and the
    log lines. *)
Record effects : Type := {
  puts : list string;
  logged : list log_record
}.

(** [connect_and_listen]: both handlers return normally, so only what is
    not an [Exception] leaves the function. *)
Definition connect_and_listen (url : string) (s : session)
  : res unit * effects :=
  let l0 := [Log INFO ("Connecting to WebSocket at " ++ url)%string] in
  let l1 := match frames s, ending s with
            | [], Some _ => l0
            | _, _ => l0 ++ [Log INFO ("Connected to WebSocket at " ++ url)%string]
            end in
  match ending s with
  | None => (Ret tt, {| puts := frames s; logged := l1 |})
  | Some TimeoutError =>
      (Ret tt, {| puts := frames s;
                  logged := l1 ++ [Log ERROR ("Connection attempt timed out: " ++ url)%string] |})
  | Some e =>
      if is_Exception e
      then (Ret tt, {| puts := frames s;
                       logged := l1 ++ [Log ERROR ("Unhandled exception with " ++ url)%string] |})
      else (Raise e, {| puts := frames s; logged := l1 |})
  end.

(** What the environment supplies to one pass of the loop of [run]. *)
Record attempt : Type := {
  conn : session;
  (** [random.uniform(0, 1)] *)
  jitter : Q;
  (** [stop()] was called while this pass was suspended *)
  stop_called : bool
}.

(** What one pass of the loop did. *)
Record pass : Type := {
  url_index : nat;          (** index of [current_url] *)
  outcome : res unit;       (** how the [try] body ended *)
  delay : Q;                (** argument of [asyncio.sleep] *)
  done : effects
}.

Inductive exit : Type :=
| Stopped                   (** [self.running] was false at the loop test *)
| Propagated (e : exn)      (** an exception left [run] *)
| Suspended.                (** the environment supplied no further pass *)

(** The [except] clauses of [run]: the log line of a caught exception. *)
Definition run_except (url : string) (e : exn) : option log_record :=
  match e with
  | ConnectionClosedError | ConnectionError | OSError | TimeoutError =>
      Some (Log WARNING ("Connection error with " ++ url)%string)
  | InvalidStatus => Some (Log ERROR ("Invalid status for " ++ url)%string)
  | _ => if is_Exception e
         then Some (Log ERROR ("Unhandled exception with " ++ url)%string)
         else None
  end.

(** [retry_delay] after the [try] statement, before [finally]. *)
Definition after_try (retry_delay : Z) (r : res unit) : Z :=
  match r with
  | Ret _ => 1
  | Raise _ => retry_delay
  end.

(** [min(retry_delay * 2, 60)] *)
Definition next_delay (retry_delay : Z) : Z := Z.min (retry_delay * 2) 60.

(** The [finally] block: the next index, the delay slept, the next
    [retry_delay]. *)
Definition finally (c : t) (retry_delay : Z) (j : Q) : nat * Q * Z :=
  (((current_url_index c + 1) mod (List.length (urls c)))%nat,
   (inject_Z retry_delay + j)%Q,
   next_delay retry_delay).

(** The loop of [run] from a given [retry_delay], over the passes the
    environment supplies. *)
Fixpoint run_loop (c : t) (retry_delay : Z) (env : list attempt)
  : list pass * exit * t * Z :=
  if negb (running c) then ([], Stopped, c, retry_delay) else
  match env with
  | [] => ([], Suspended, c, retry_delay)
  | a :: env' =>
      match nth_error (urls c) (current_url_index c) with
      | None => ([], Propagated IndexError, c, retry_delay)
      | Some current_url =>
          let '(r, eff) := connect_and_listen current_url (conn a) in
          let rd := after_try retry_delay r in
          let handler := match r with
                         | Ret _ => []
                         | Raise e => match run_except current_url e with
                                      | Some l => [l]
                                      | None => []
                                      end
                         end in
          let '(idx', d, rd') := finally c rd (jitter a) in
          let c' := {| urls := urls c;
                       current_url_index := idx';
                       running := running c && negb (stop_called a) |} in
          let p := {| url_index := current_url_index c;
                      outcome := r;
                      delay := d;
                      done := {| puts := puts eff;
                                 logged := logged eff ++ handler ++
                                   [Log INFO "Retrying after delay"] |} |} in
          match r with
          | Raise e =>
              if is_Exception e
              then let '(ps, x, cf, rf) := run_loop c' rd' env' in
                   (p :: ps, x, cf, rf)
              else ([p], Propagated e, c', rd')
          | Ret _ =>
              let '(ps, x, cf, rf) := run_loop c' rd' env' in
              (p :: ps, x, cf, rf)
          end
      end
  end.

(** [run] *)
Definition run (c : t) (env : list attempt) : list pass * exit * t * Z :=
  run_loop c 1 env.

(** [stop] *)
Definition stop (c : t) : t :=
  {| urls := urls c; current_url_index := current_url_index c; running := false |}.

End WebSocketClient.

(* ================================================================== *)
(** * The ingest queue: [asyncio.Queue(maxsize=100000)] *)

Module IngestQueue.

(** [asyncio.Queue]: the bound and the buffered items, oldest first.
    [put], [get] and [full] behave as the library documents them: [put]
    waits while the queue is full, [get] returns the oldest item. *)
Record t : Type := {
  maxsize : Z;
  items : list string
}.

(** [asyncio.Queue(maxsize=n)] *)
Definition Queue (n : Z) : t := {| maxsize := n; items := [] |}.

Definition qsize (q : t) : Z := Z.of_nat (List.length (items q)).

(** [Queue.full]: a bound of zero or less means no bound. *)
Definition full (q : t) : bool :=
  if maxsize q <=? 0 then false else maxsize q <=? qsize q.

(** The producer is either reading the connection or suspended inside
    [await self.message_queue.put(message)]. *)
Inductive producer : Type :=
| Listening
| Putting (message : string).

Record sys : Type := {
  queue : t;
  prod : producer;
  taken : list string      (** what the workers' [get] returned, in order *)
}.

(** The queue [main] creates, before any message. *)
Definition main_queue : t := Queue 100000.

Definition start : sys :=
  {| queue := main_queue; prod := Listening; taken := [] |}.

Inductive action : Type :=
| Receive (message : string)  (** the connection yields a frame; [put] starts *)
| Wake                        (** the suspended [put] is resumed *)
| Get                         (** a worker's [get] returns the oldest item *)
| GetTimeout.                 (** a worker's [wait_for(get(), 1.0)] times out *)

Definition enqueue (m : string) (q : t) : t :=
  {| maxsize := maxsize q; items := items q ++ [m] |}.

(** One scheduling step; [None] when the action cannot happen in [s]. *)
Definition step (a : action) (s : sys) : option sys :=
  match a, prod s with
  | Receive m, Listening =>
      if full (queue s)
      then Some {| queue := queue s; prod := Putting m; taken := taken s |}
      else Some {| queue := enqueue m (queue s); prod := Listening; taken := taken s |}
  | Receive _, Putting _ => None
  | Wake, Putting m =>
      if full (queue s) then None
      else Some {| queue := enqueue m (queue s); prod := Listening; taken := taken s |}
  | Wake, Listening => None
  | Get, _ =>
      match items (queue s) with
      | [] => None
      | m :: rest =>
          Some {| queue := {| maxsize := maxsize (queue s); items := rest |};
                  prod := prod s;
                  taken := taken s ++ [m] |}
      end
  | GetTimeout, _ =>
      match items (queue s) with
      | [] => Some s
      | _ :: _ => None
      end
  end.

Fixpoint exec (acts : list action) (s : sys) : option sys :=
  match acts with
  | [] => Some s
  | a :: acts' =>
      match step a s with
      | Some s' => exec acts' s'
      | None => None
      end
  end.

(** The frames the connection delivered during [acts]. *)
Fixpoint received (acts : list action) : list string :=
  match acts with
  | [] => []
  | Receive m :: acts' => m :: received acts'
  | _ :: acts' => received acts'
  end.

Definition pending (p : producer) : list string :=
  match p with
  | Listening => []
  | Putting m => [m]
  end.

End IngestQueue.

(* ================================================================== *)
(** * MessageProcessor *)

(** What one message's handling can observe and change outside itself. *)
Record world : Type := {
  (** the lines passed to [logging], oldest first *)
  log : list log_record;
  (** every call [es_client.index(id=.., document=..)], oldest first *)
  calls : list (pyval * pyval);
  (** the documents of the index by id; the store writes or overwrites
      the document at the id of an accepted call *)
  store : list (pyval * pyval);
  (** number of [message_queue.task_done()] calls *)
  acked : nat
}.

Definition empty_world : world :=
  {| log := []; calls := []; store := []; acked := 0%nat |}.

(** What the outside answers while one message is handled. *)
Record ambient : Type := {
  (** [datetime.now(tz=timezone.utc)] *)
  now : datetime;
  (** the exception [es_client.index] raises for this id and document, if
      any (store unreachable, document rejected, task cancelled) *)
  es_reply : pyval -> pyval -> option exn
}.

(** Computations that log, call the store and may raise. *)
Definition M (A : Type) : Type := world -> res A * world.

Definition ret {A} (a : A) : M A := fun w => (Ret a, w).

Definition raise {A} (e : exn) : M A := fun w => (Raise e, w).

Definition bind {A B} (m : M A) (k : A -> M B) : M B :=
  fun w => match m w with
           | (Ret a, w') => k a w'
           | (Raise e, w') => (Raise e, w')
           end.

Definition lift {A} (r : res A) : M A := fun w => (r, w).

Notation "x <- m ;; k" := (bind m (fun x => k))
  (at level 61, m at next level, right associativity).
Notation "m ;;; k" := (bind m (fun _ => k))
  (at level 61, right associativity).

(** [try: body except <those e with sel e>: handler] *)
Definition try_except {A} (body : M A) (sel : exn -> bool) (handler : exn -> M A)
  : M A :=
  fun w => match body w with
           | (Ret a, w') => (Ret a, w')
           | (Raise e, w') => if sel e then handler e w' else (Raise e, w')
           end.

Definition add_log (r : log_record) (w : world) : world :=
  {| log := log w ++ [r]; calls := calls w; store := store w; acked := acked w |}.

Definition add_call (id doc : pyval) (w : world) : world :=
  {| log := log w; calls := calls w ++ [(id, doc)]; store := store w;
     acked := acked w |}.

(** The index after the store wrote or overwrote the document at [id]
    (the index API of the store, which is outside the repository). *)
Definition upsert (id doc : pyval) (st : list (pyval * pyval))
  : list (pyval * pyval) :=
  filter (fun kv => negb (pyval_eqb (fst kv) id)) st ++ [(id, doc)].

Definition put_doc (id doc : pyval) (w : world) : world :=
  {| log := log w; calls := calls w; store := upsert id doc (store w);
     acked := acked w |}.

Definition ack (w : world) : world :=
  {| log := log w; calls := calls w; store := store w; acked := S (acked w) |}.

(** [logging.info], [logging.warning], [logging.error] *)
Definition logging (l : level) (s : string) : M unit :=
  fun w => (Ret tt, add_log (Log l s) w).

(** [await self.es_client.index(index=ELASTICSEARCH_INDEX, id=id,
    document=doc)]: the call is recorded; the store either raises or writes
    the document at [id]. *)
Definition es_index (a : ambient) (id doc : pyval) : M unit :=
  fun w =>
    match es_reply a id doc with
    | Some e => (Raise e, add_call id doc w)
    | None => (Ret tt, put_doc id doc (add_call id doc w))
    end.

(** [self.message_queue.task_done()] *)
Definition task_done : M unit :=
  fun w => (Ret tt, ack w).

(** [data[k] = v] *)
Definition py_setitem (obj : pyval) (k : string) (v : pyval) : res pyval :=
  match obj with
  | PDict d => Ret (PDict (dict_set k v d))
  | _ => Raise TypeError
  end.

Module MessageProcessor.
Section WithRuntime.

Context `{RT : Runtime}.

Record t : Type := {
  language_filter : list string;
  (** [self.es_client] is not [None] *)
  es_client : bool;
  running : bool
}.

(** [__init__]: [language_filter or []] *)
Definition init (language_filter : option (list string)) (es_client : bool) : t :=
  {| language_filter := match language_filter with Some l => l | None => [] end;
     es_client := es_client;
     running := true |}.

(** [is_language_allowed] *)
Definition is_language_allowed (p : t) (langs : pyval) : res bool :=
  match language_filter p with
  | [] => Ret true
  | _ :: _ =>
      match py_iter langs with
      | Ret xs => Ret (existsb (fun lang => py_in lang (language_filter p)) xs)
      | Raise e => Raise e
      end
  end.

Definition is_ValueError_or_TypeError (e : exn) : bool :=
  match e with
  | ValueError | UnicodeDecodeError | JSONDecodeError | TypeError => true
  | _ => false
  end.

(** [time_us / 1_000_000] followed by [datetime.fromtimestamp]: a number
    goes to the conversion, anything else cannot be divided. *)
Definition fromtimestamp (time_us : pyval) : M datetime :=
  match time_us with
  | PInt n =>
      match utc_fromtimestamp n with
      | Converted t => ret t
      | ConvError e => raise e
      end
  | PBool b =>
      match utc_fromtimestamp (if b then 1 else 0) with
      | Converted t => ret t
      | ConvError e => raise e
      end
  | _ => raise TypeError
  end.

(** [get_timestamp] *)
Definition get_timestamp (a : ambient) (time_us : pyval) : M datetime :=
  try_except
    (if truthy time_us then fromtimestamp time_us else ret (now a))
    is_ValueError_or_TypeError
    (fun _ => logging WARNING "Invalid timestamp format" ;;; ret (now a)).

(** The id [index_data] passes to the store. *)
Definition doc_id (data : pyval) : M pyval :=
  commit <- lift (py_get data "commit" (PDict [])) ;;
  cid <- lift (py_get commit "cid" PNone) ;;
  if truthy cid then ret cid
  else
    did <- lift (py_get data "did" (PStr "")) ;;
    time_us <- lift (py_get data "time_us" (PStr "")) ;;
    ret (PStr (py_format did ++ "_" ++ py_format time_us)%string).

(** [index_data] *)
Definition index_data (p : t) (a : ambient) (data : pyval) : M unit :=
  if negb (es_client p)
  then logging ERROR "Elasticsearch client is not initialized."
  else
    try_except
      (id <- doc_id data ;;
       es_index a id data ;;;
       logging INFO "Indexed document ID")
      is_Exception
      (fun _ => logging ERROR "Failed to index document").

(** [process_message] *)
Definition process_message (p : t) (a : ambient) (data : pyval) : M unit :=
  commit <- lift (py_get data "commit" (PDict [])) ;;
  record <- lift (py_get commit "record" (PDict [])) ;;
  langs <- lift (py_get record "langs" (PList [])) ;;
  rkey <- lift (py_get commit "rkey" (PStr "unknown")) ;;
  did <- lift (py_get data "did" (PStr "unknown")) ;;
  allowed <- lift (is_language_allowed p langs) ;;
  if negb allowed then ret tt
  else
    time_us <- lift (py_get data "time_us" PNone) ;;
    timestamp <- get_timestamp a time_us ;;
    let profile_url :=
      ("https://bsky.app/profile/" ++ py_format did ++ "/post/" ++ py_format rkey)%string in
    data1 <- lift (py_setitem data "post_url" (PStr profile_url)) ;;
    data2 <- lift (py_setitem data1 "record_time" (PDatetime timestamp)) ;;
    index_data p a data2.

Definition is_JSONDecodeError (e : exn) : bool :=
  match e with
  | JSONDecodeError => true
  | _ => false
  end.

(** [handle_message]; the lock makes the whole body one step with respect
    to the other workers. *)
Definition handle_message (p : t) (a : ambient) (message : string) : M unit :=
  try_except
    (data <- (match json_loads message with
              | Loaded v => ret v
              | LoadError e => raise e
              end) ;;
     process_message p a data)
    is_JSONDecodeError
    (fun _ => logging ERROR "Failed to decode JSON message").

(** [stop] *)
Definition stop (p : t) : t :=
  {| language_filter := language_filter p; es_client := es_client p;
     running := false |}.

(** What a worker's [await asyncio.wait_for(self.message_queue.get(), 1.0)]
    ends with, and what another task does while the worker is suspended in
    a pass of its loop (in [get], or handling the item [get] returned):
    [StopCalled] stands before the outcome of the [get] of that pass. *)
Inductive event : Type :=
| Got (message : string) (a : ambient)  (** an item arrived in time *)
| TimedOut                              (** [asyncio.TimeoutError] *)
| Cancelled                             (** the task was cancelled in [get] *)
| StopCalled.                           (** another task ran [stop()] *)

Inductive exit : Type :=
| Stopped                   (** [self.running] was false at the loop test *)
| Broke                     (** [break] after [CancelledError] *)
| Propagated (e : exn)      (** an exception left [worker] *)
| Suspended.                (** no further event *)

(** The inner [try] of [worker] around one item. *)
Definition handle_item (p : t) (a : ambient) (message : string) : M unit :=
  fun w =>
    match try_except (handle_message p a message) is_Exception
            (fun _ => logging ERROR "Error handling message") w with
    | (r, w') => (r, snd (task_done w'))
    end.

(** The loop of [worker], entered at its test [while self.running]
    ([in_pass = false]) or inside the pass in progress ([in_pass = true]):
    [self.running] is read at the loop test only, so once a pass has begun
    what its [get] ends with is handled whatever [stop()] did meanwhile,
    and the flag is read when the pass is over. *)
Fixpoint worker_loop (in_pass : bool) (p : t) (evs : list event) (w : world)
  : exit * t * world :=
  if negb in_pass && negb (running p) then (Stopped, p, w) else
  match evs with
  | [] => (Suspended, p, w)
  | StopCalled :: evs' => worker_loop true (stop p) evs' w
  | TimedOut :: evs' => worker_loop false p evs' w
  | Cancelled :: _ =>
      (Broke, p, snd (logging INFO "Worker task cancelled. Exiting..." w))
  | Got message a :: evs' =>
      match handle_item p a message w with
      | (Ret _, w') => worker_loop false p evs' w'
      | (Raise CancelledError, w') =>
          (Broke, p, snd (logging INFO "Worker task cancelled. Exiting..." w'))
      | (Raise e, w') => (Propagated e, p, w')
      end
  end.

(** [worker] *)
Definition worker (p : t) (evs : list event) (w : world) : exit * t * world :=
  worker_loop false p evs w.

End WithRuntime.
End MessageProcessor.

(* ================================================================== *)
(** * Events: the fields the pipeline reads, and the inbound schema *)

Section Events.

Context `{RT : Runtime}.

(** [data.get("commit", {})] *)
Definition commit_of (data : pyval) : res pyval :=
  py_get data "commit" (PDict []).

(** [data.get("commit", {}).get(k, default)] *)
Definition commit_field (data : pyval) (k : string) (default : pyval) : res pyval :=
  match commit_of data with
  | Ret commit => py_get commit k default
  | Raise e => Raise e
  end.

(** [commit.get("record", {})] *)
Definition record_of (data : pyval) : res pyval :=
  commit_field data "record" (PDict []).

(** [record.get("langs", [])] *)
Definition langs_of (data : pyval) : res pyval :=
  match record_of data with
  | Ret record => py_get record "langs" (PList [])
  | Raise e => Raise e
  end.

(** [data.get("commit", {}).get("cid", None)] *)
Definition cid_of (data : pyval) : res pyval :=
  commit_field data "cid" PNone.

(** The text a top-level field contributes to the composite id:
    [f"{data.get(k, '')}"]. *)
Definition field_text (d : pydict) (k : string) : string :=
  match dict_get k d with
  | Some v => py_format v
  | None => ""
  end.

(** The id of an event with top-level fields [d] and commit [c]: the
    [cid] when it is truthy, else the composite of [did] and [time_us]. *)
Definition document_id (d c : pydict) : pyval :=
  if truthy (get_or c "cid" PNone) then get_or c "cid" PNone
  else PStr (field_text d "did" ++ "_" ++ field_text d "time_us")%string.

Definition is_str (v : pyval) : bool :=
  match v with
  | PStr _ => true
  | _ => false
  end.

Definition opt_ok (f : pyval -> bool) (o : option pyval) : bool :=
  match o with
  | Some v => f v
  | None => true
  end.

(** An integer that denotes an instant a [datetime] can hold. *)
Definition is_instant (v : pyval) : bool :=
  match v with
  | PInt n => match utc_fromtimestamp n with
              | Converted _ => true
              | ConvError _ => false
              end
  | _ => false
  end.

Definition is_langs (v : pyval) : bool :=
  match v with
  | PList xs => forallb is_str xs
  | _ => false
  end.

Definition is_int (v : pyval) : bool :=
  match v with
  | PInt _ => true
  | _ => false
  end.

(** The inbound message schema: [did] a string, [time_us] an optional
    integer, [commit] an object with a string [rkey], an optional string
    [cid] and an object [record] whose optional [langs] is an array of
    strings. *)
Definition well_formed (data : pyval) : bool :=
  match data with
  | PDict d =>
      match dict_get "did" d, dict_get "commit" d with
      | Some (PStr _), Some (PDict c) =>
          opt_ok is_int (dict_get "time_us" d) &&
          match dict_get "rkey" c, dict_get "record" c with
          | Some (PStr _), Some (PDict r) =>
              opt_ok is_str (dict_get "cid" c) &&
              opt_ok is_langs (dict_get "langs" r)
          | _, _ => false
          end
      | _, _ => false
      end
  | _ => false
  end.

(** The event's [langs] and the allow-list have no language in common. *)
Definition disjoint (xs : list pyval) (allow : list string) : Prop :=
  forall s, In (PStr s) xs -> ~ In s allow.

(** [post_url] *)
Definition post_url (did rkey : string) : string :=
  ("https://bsky.app/profile/" ++ did ++ "/post/" ++ rkey)%string.

(** A value Python divides as a number: an [int], or a [bool] (which is
    an [int]: [False] is 0 and [True] is 1). *)
Definition is_number (v : pyval) : bool :=
  match v with
  | PInt _ | PBool _ => true
  | _ => false
  end.

(** Which [record_time] an event with the given [time_us] entry gets
    while the clock shows [now a]: the conversion of a non-zero integer
    that the conversion accepts; the clock when the entry is absent, null,
    zero, not a number (a string, a list, an object, empty or not), or
    rejected by the conversion with [ValueError] (or with another of the
    exceptions [get_timestamp] catches). *)
Inductive stamp (a : ambient) : option pyval -> datetime -> Prop :=
| stamp_absent : stamp a None (now a)
| stamp_null : stamp a (Some PNone) (now a)
| stamp_zero : stamp a (Some (PInt 0)) (now a)
| stamp_converted n t :
    n <> 0 -> utc_fromtimestamp n = Converted t ->
    stamp a (Some (PInt n)) t
| stamp_rejected n e :
    n <> 0 -> utc_fromtimestamp n = ConvError e ->
    MessageProcessor.is_ValueError_or_TypeError e = true ->
    stamp a (Some (PInt n)) (now a)
| stamp_false : stamp a (Some (PBool false)) (now a)
| stamp_true t :
    utc_fromtimestamp 1 = Converted t ->
    stamp a (Some (PBool true)) t
| stamp_true_rejected e :
    utc_fromtimestamp 1 = ConvError e ->
    MessageProcessor.is_ValueError_or_TypeError e = true ->
    stamp a (Some (PBool true)) (now a)
| stamp_not_a_number v :
    is_number v = false ->
    stamp a (Some v) (now a).

(** The document [process_message] builds from the event [d]. *)
Definition enriched (d : pydict) (url : string) (ts : datetime) : pydict :=
  dict_set "record_time" (PDatetime ts) (dict_set "post_url" (PStr url) d).

(** Number of documents the index holds under [id]. *)
Definition stored_under (id : pyval) (st : list (pyval * pyval)) : nat :=
  List.length (filter (fun kv => pyval_eqb (fst kv) id) st).

End Events.

(* ================================================================== *)
(** * What the theorems say *)

Module WS := WebSocketClient.
Module IQ := IngestQueue.
Module MP := MessageProcessor.

Definition passes_of (out : list WS.pass * WS.exit * WS.t * Z) : list WS.pass :=
  fst (fst (fst out)).

Definition exit_of (out : list WS.pass * WS.exit * WS.t * Z) : WS.exit :=
  snd (fst (fst out)).

Definition client_of (out : list WS.pass * WS.exit * WS.t * Z) : WS.t :=
  snd (fst out).

(** The environment neither stops the client nor cancels its task during
    this pass. *)
Definition survives (a : WS.attempt) : bool :=
  negb (WS.stop_called a) &&
  match WS.ending (WS.conn a) with
  | Some e => is_Exception e
  | None => true
  end.

(** Round-robin selection over the pool [urls], read off what [run] did
    with the attempts [env]: pass [i] uses endpoint [i mod n]; each pass
    moves on by one; the index left behind is the next one; every attempt
    is a pass while nothing stops the client; and any [n] passes in a row
    use every endpoint. *)
Definition round_robin (urls : list string) (env : list WS.attempt)
  (out : list WS.pass * WS.exit * WS.t * Z) : Prop :=
  let n := List.length urls in
  let passes := passes_of out in
  (forall i p, nth_error passes i = Some p -> WS.url_index p = (i mod n)%nat) /\
  (forall i p q, nth_error passes i = Some p -> nth_error passes (S i) = Some q ->
     WS.url_index q = ((WS.url_index p + 1) mod n)%nat) /\
  WS.current_url_index (client_of out) = (List.length passes mod n)%nat /\
  (forallb survives env = true -> List.length passes = List.length env) /\
  (forall k j, (j < n)%nat -> (k + n <= List.length passes)%nat ->
     exists i p, (k <= i < k + n)%nat /\ nth_error passes i = Some p /\
                 WS.url_index p = j).

(** The delay the specification asks for before the [k]-th retry in a row,
    jitter apart: [min(initial * 2^(k-1), 60)] with [initial = 1]. *)
Definition spec_backoff (k : Z) : Z := Z.min (1 * 2 ^ (k - 1)) 60.

(** [retry_delay] after [k] passes of [run] whose [try] body raised,
    starting from [rd]: [k] times the last line of the [finally] block. *)
Definition doubled (k : nat) (rd : Z) : Z := Nat.iter k WS.next_delay rd.

(** Every message the connection delivered so far, in order: those the
    workers took, those buffered, and the one a suspended [put] holds. *)
Definition held (s : IQ.sys) : list string :=
  IQ.taken s ++ IQ.items (IQ.queue s) ++ IQ.pending (IQ.prod s).

(** The queue is the one [main] made and is within its bound. *)
Definition bounded (s : IQ.sys) : Prop :=
  IQ.maxsize (IQ.queue s) = 100000 /\ IQ.qsize (IQ.queue s) <= 100000.

(** Backpressure in state [s]: a [put] on the full queue suspends the
    producer with its message, stays suspended while the queue is full, is
    resumed by enqueueing the message once it is not, and a [get] on the
    full queue makes room. *)
Definition backpressure (s : IQ.sys) : Prop :=
  (forall m, IQ.prod s = IQ.Listening -> IQ.full (IQ.queue s) = true ->
     IQ.step (IQ.Receive m) s =
     Some {| IQ.queue := IQ.queue s; IQ.prod := IQ.Putting m; IQ.taken := IQ.taken s |}) /\
  (forall m, IQ.prod s = IQ.Putting m -> IQ.full (IQ.queue s) = true ->
     IQ.step IQ.Wake s = None) /\
  (forall m, IQ.prod s = IQ.Putting m -> IQ.full (IQ.queue s) = false ->
     IQ.step IQ.Wake s =
     Some {| IQ.queue := IQ.enqueue m (IQ.queue s); IQ.prod := IQ.Listening;
             IQ.taken := IQ.taken s |}) /\
  (forall s', IQ.full (IQ.queue s) = true -> IQ.step IQ.Get s = Some s' ->
     IQ.full (IQ.queue s') = false /\ IQ.prod s' = IQ.prod s).

(** The world after [get_timestamp]: untouched, or one warning longer. *)
Definition maybe_warned (w w1 : world) : Prop :=
  w1 = w \/ w1 = add_log (Log WARNING "Invalid timestamp format") w.

(** Between [w] and [w1] the store was called at most once, and the index
    changed only by that call being accepted. *)
Definition at_most_one_call (w w1 : world) : Prop :=
  (calls w1 = calls w /\ store w1 = store w) \/
  (exists id doc,
     calls w1 = calls w ++ [(id, doc)] /\
     (store w1 = store w \/ store w1 = upsert id doc (store w))).

(** The line [handle_message] logs for an undecodable payload, the line
    [worker] logs for any other exception, and the line [index_data] logs
    for a failed write. *)
Definition decode_failure : log_record :=
  Log ERROR "Failed to decode JSON message".

Definition handling_failure : log_record :=
  Log ERROR "Error handling message".

Definition index_failure : log_record :=
  Log ERROR "Failed to index document".

(** What the call [es_client.index(id, doc)] inside [index_data] leads to,
    by the reply of the store. *)
Definition index_outcome (a : ambient) (id doc : pyval) (w : world)
  : res unit * world :=
  match es_reply a id doc with
  | None =>
      (Ret tt, add_log (Log INFO "Indexed document ID")
                 (put_doc id doc (add_call id doc w)))
  | Some e =>
      if is_Exception e
      then (Ret tt, add_log index_failure (add_call id doc w))
      else (Raise e, add_call id doc w)
  end.

(** The top-level fields of an event, [[]] for what is not a dict; its
    [commit] and [record] objects. *)
Definition fields (data : pyval) : pydict :=
  match data with
  | PDict d => d
  | _ => []
  end.

Definition commit_fields (data : pyval) : pydict :=
  fields (get_or (fields data) "commit" (PDict [])).

Definition record_fields (data : pyval) : pydict :=
  fields (get_or (commit_fields data) "record" (PDict [])).

(** Two events carry the same key: the same truthy [cid], or no truthy
    [cid] and the same [did] and [time_us] entries. *)
Definition same_key (d1 c1 d2 c2 : pydict) : Prop :=
  (truthy (get_or c1 "cid" PNone) = true /\
   get_or c1 "cid" PNone = get_or c2 "cid" PNone) \/
  (truthy (get_or c1 "cid" PNone) = false /\
   truthy (get_or c2 "cid" PNone) = false /\
   dict_get "did" d1 = dict_get "did" d2 /\
   dict_get "time_us" d1 = dict_get "time_us" d2).

(** The world after [index_data] handled [doc1] and then [doc2]. *)
Definition indexed_twice `{Runtime} (p : MP.t) (a1 a2 : ambient)
  (doc1 doc2 : pyval) (w : world) : world :=
  snd (MP.index_data p a2 doc2 (snd (MP.index_data p a1 doc1 w))).

(* ================================================================== *)
(** * The module's settings, a small runtime and sample data *)

(** [EXTERNAL_WS_URLS] *)
Definition EXTERNAL_WS_URLS : list string :=
  [ "wss://jetstream1.us-east.bsky.network/subscribe?wantedCollections=app.bsky.feed.post";
    "wss://jetstream2.us-east.bsky.network/subscribe?wantedCollections=app.bsky.feed.post";
    "wss://jetstream1.us-west.bsky.network/subscribe?wantedCollections=app.bsky.feed.post";
    "wss://jetstream2.us-west.bsky.network/subscribe?wantedCollections=app.bsky.feed.post" ].

(** [LANGUAGE_FILTER] *)
Definition LANGUAGE_FILTER : list string := [].

(** The processor [main] builds: the module's filter and a client. *)
Definition main_processor : MP.t := MP.init (Some LANGUAGE_FILTER) true.

(** A processor that lets only English through. *)
Definition english_only : MP.t := MP.init (Some ["en"]) true.

(** A sample of the conversion on Linux: a [datetime] holds the years 1 to
    9999 (the result is exact between 1970 and 2100, elsewhere up to the
    rounding of the division); beyond them the conversion raises
    [ValueError], then [OSError] once the year leaves the C [int], and
    [OverflowError] once the seconds leave [time_t]. *)
Definition sample_fromtimestamp (n : Z) : converted :=
  if (-62135596800000000 <=? n) && (n <? 253402300800000000) then Converted n
  else if Z.abs n <? 60000000000000000000000 then ConvError ValueError
  else if Z.abs n <? 9223372036854775808000000 then ConvError OSError
  else ConvError OverflowError.

(** A sample of the decoder: it decodes the three payloads below and
    rejects every other one. *)
Definition sample_loads (s : string) : loaded :=
  if (s =? "{}")%string then Loaded (PDict [])
  else if (s =? "[]")%string then Loaded (PList [])
  else if (s =? "null")%string then Loaded PNone
  else LoadError JSONDecodeError.

#[local] Instance sample_runtime : Runtime := {|
  json_loads := sample_loads;
  utc_fromtimestamp := sample_fromtimestamp;
  py_repr := fun _ => "<repr>"
|}.

(** A connection attempt that fails with [OSError] before any frame. *)
Definition refused (j : Q) : WS.attempt :=
  {| WS.conn := {| WS.frames := []; WS.ending := Some OSError |};
     WS.jitter := j;
     WS.stop_called := false |}.

(** Three connection attempts in a row that are refused. *)
Definition three_refusals : list WS.attempt :=
  [refused (1 # 4); refused (1 # 2); refused (3 # 4)].

(** A short schedule of the queue and the state it leads to. *)
Definition sample_schedule : list IQ.action :=
  [IQ.Receive "a"; IQ.Receive "b"; IQ.Get; IQ.Receive "c"].

Definition sample_sys : IQ.sys :=
  {| IQ.queue := {| IQ.maxsize := 100000; IQ.items := ["b"; "c"] |};
     IQ.prod := IQ.Listening;
     IQ.taken := ["a"] |}.

(** A clock reading: 2023-11-14 22:13:21 UTC. *)
Definition reading : datetime := 1700000001000000.

(** A store that accepts every document, at a fixed clock reading. *)
Definition calm (t : datetime) : ambient :=
  {| now := t; es_reply := fun _ _ => None |}.

(** A store that is unreachable. *)
Definition outage (t : datetime) : ambient :=
  {| now := t; es_reply := fun _ _ => Some ApiError |}.

(** An event as the firehose sends it. *)
Definition post (did : string) (time_us : option Z) (cid : option string)
  (rkey : string) (langs : option (list string)) (body : string) : pyval :=
  PDict
    ([("did", PStr did)] ++
     match time_us with Some n => [("time_us", PInt n)] | None => [] end ++
     [("commit",
       PDict
         ([("rkey", PStr rkey)] ++
          match cid with Some c => [("cid", PStr c)] | None => [] end ++
          [("record",
            PDict
              (match langs with
               | Some ls => [("langs", PList (map PStr ls))]
               | None => []
               end ++ [("text", PStr body)]))]))]).

Definition post_en_fr : pyval :=
  post "did:abc" (Some 1700000000000000) (Some "c1") "xyz" (Some ["en"; "fr"]) "hello".

(** A second delivery of [post_en_fr]: same [cid], other body and time. *)
Definition post_en_fr_again : pyval :=
  post "did:abc" (Some 1700000000000777) (Some "c1") "xyz" (Some ["en"; "fr"]) "edited".

Definition post_nl : pyval :=
  post "did:abc" (Some 1700000000000001) (Some "c2") "xyw" (Some ["nl"]) "hallo".

Definition post_untagged : pyval :=
  post "did:abc" (Some 1700000000000002) (Some "c3") "xyv" None "hi".

(** An event stamped with the epoch itself. *)
Definition post_epoch : pyval :=
  post "did:abc" (Some 0) (Some "c4") "xyz" (Some ["en"]) "first".

(** Two events with the empty string as [cid] and different authors. *)
Definition blank_cid_a : pyval :=
  post "did:a" (Some 1700000000000000) (Some "") "k1" (Some ["en"]) "one".

Definition blank_cid_b : pyval :=
  post "did:b" (Some 1700000000000000) (Some "") "k2" (Some ["en"]) "two".

(** Two different events of one author without [cid] and [time_us]. *)
Definition bare_one : pyval := post "did:abc" None None "k1" (Some ["en"]) "one".

Definition bare_two : pyval := post "did:abc" None None "k2" (Some ["en"]) "two".

(* ================================================================== *)
(** * Further statements and samples *)

(** The connection of this attempt closed, or failed with an [Exception]. *)
Definition ends_quietly (a : WS.attempt) : bool :=
  match WS.ending (WS.conn a) with
  | Some e => is_Exception e
  | None => true
  end.

(** A connection that delivers two frames and closes, during which another
    task calls [stop()]. *)
Definition last_session : WS.attempt :=
  {| WS.conn := {| WS.frames := ["m1"; "m2"]; WS.ending := None |};
     WS.jitter := 1 # 3;
     WS.stop_called := true |}.

(** A connection during which the task is cancelled. *)
Definition cancelled_session : WS.attempt :=
  {| WS.conn := {| WS.frames := ["m1"]; WS.ending := Some CancelledError |};
     WS.jitter := 1 # 3;
     WS.stop_called := false |}.

(** Number of items a worker's [get] returned. *)
Fixpoint count_got (evs : list MP.event) : nat :=
  match evs with
  | [] => 0
  | MP.Got _ _ :: evs' => S (count_got evs')
  | _ :: evs' => count_got evs'
  end.

(** The line [worker] logs when its task is cancelled. *)
Definition cancelled_line : log_record :=
  Log INFO "Worker task cancelled. Exiting...".

(** The line [index_data] logs when there is no client. *)
Definition no_client_line : log_record :=
  Log ERROR "Elasticsearch client is not initialized.".

(** A processor built without a client, as the defaults of [__init__]
    give it. *)
Definition bare_processor : MP.t := MP.init None false.

(** How [process_message] renders a [did] or [rkey] entry in the URL: the
    placeholder for a missing key, the formatted value otherwise. *)
Definition shown `{Runtime} (o : option pyval) : string :=
  match o with
  | Some v => py_format v
  | None => "unknown"
  end.


(** What a worker meets: the empty object, a timeout, a payload that is a
    list, and a truncated payload while the store is down. *)
Definition sample_events : list MP.event :=
  [MP.Got "{}" (calm reading); MP.TimedOut; MP.Got "[]" (calm reading);
   MP.Got "{" (outage reading)].

(** The world the processor of [main] leaves after [sample_events]. *)
Definition sample_world : world :=
  {| log := [Log INFO "Indexed document ID"; handling_failure; decode_failure];
     calls := [(PStr "_",
                PDict (enriched [] "https://bsky.app/profile/unknown/post/unknown"
                         reading))];
     store := [(PStr "_",
                PDict (enriched [] "https://bsky.app/profile/unknown/post/unknown"
                         reading))];
     acked := 3 |}.

(** The text of an event as the firehose sends it: the JSON of [post]. *)
Definition dq : string := String (Ascii.ascii_of_nat 34) EmptyString.

Definition quoted (s : string) : string := (dq ++ s ++ dq)%string.

Definition payload (did : string) (time_us : option Z) (cid : option string)
  (rkey : string) (langs : option (list string)) (body : string) : string :=
  ("{" ++ quoted "did" ++ ": " ++ quoted did ++
   match time_us with
   | Some n => ", " ++ quoted "time_us" ++ ": " ++ NilZero.string_of_int (Z.to_int n)
   | None => EmptyString
   end ++
   ", " ++ quoted "commit" ++ ": {" ++ quoted "rkey" ++ ": " ++ quoted rkey ++
   match cid with
   | Some c => ", " ++ quoted "cid" ++ ": " ++ quoted c
   | None => EmptyString
   end ++
   ", " ++ quoted "record" ++ ": {" ++
   match langs with
   | Some ls => quoted "langs" ++ ": [" ++ String.concat ", " (map quoted ls) ++ "], "
   | None => EmptyString
   end ++
   quoted "text" ++ ": " ++ quoted body ++ "}}}")%string.

(** An event stamped far beyond what [time_t] holds, and its text. *)
Definition post_far : pyval :=
  post "did:abc" (Some (10 ^ 25)) (Some "c5") "xyz" (Some ["en"]) "late".

Definition payload_far : string :=
  payload "did:abc" (Some (10 ^ 25)) (Some "c5") "xyz" (Some ["en"]) "late".

(** An event whose [time_us] is the empty string: falsy, and not a
    number. *)
Definition post_blank_time : pyval :=
  PDict [("did", PStr "did:abc");
         ("time_us", PStr "");
         ("commit", PDict [("rkey", PStr "xyz");
                           ("cid", PStr "c7");
                           ("record", PDict [("langs", PList [PStr "en"])])])].

(** An event stamped beyond the year 9999, which the conversion rejects
    with [ValueError]. *)
Definition post_late : pyval :=
  post "did:abc" (Some (10 ^ 18)) (Some "c6") "xyz" (Some ["en"]) "later".

Definition payload_en_fr : string :=
  payload "did:abc" (Some 1700000000000000) (Some "c1") "xyz" (Some ["en"; "fr"]) "hello".

(** An event whose [langs] is [null], one whose [commit] is [null], and
    their texts. *)
Definition post_null_langs : pyval :=
  PDict [("did", PStr "did:abc");
         ("commit", PDict [("rkey", PStr "xyz");
                           ("record", PDict [("langs", PNone)])])].

Definition payload_null_langs : string :=
  ("{" ++ quoted "did" ++ ": " ++ quoted "did:abc" ++ ", " ++ quoted "commit" ++
   ": {" ++ quoted "rkey" ++ ": " ++ quoted "xyz" ++ ", " ++ quoted "record" ++
   ": {" ++ quoted "langs" ++ ": null}}}")%string.

Definition post_null_commit : pyval :=
  PDict [("did", PStr "did:abc"); ("commit", PNone)].

Definition payload_null_commit : string :=
  ("{" ++ quoted "did" ++ ": " ++ quoted "did:abc" ++ ", " ++ quoted "commit" ++
   ": null}")%string.

(** A sample of the decoder that also decodes the texts above. *)
Definition firehose_loads (s : string) : loaded :=
  if (s =? payload_far)%string then Loaded post_far
  else if (s =? payload_en_fr)%string then Loaded post_en_fr
  else if (s =? payload_null_langs)%string then Loaded post_null_langs
  else if (s =? payload_null_commit)%string then Loaded post_null_commit
  else sample_loads s.

Definition firehose_runtime : Runtime := {|
  json_loads := firehose_loads;
  utc_fromtimestamp := sample_fromtimestamp;
  py_repr := fun _ => "<repr>"
|}.


(* ================================================================== *)
(** * The index at startup: [create_index_with_dynamic_mapping] *)

Module Startup.

(** The store as the startup sees it: its indices by name, each with the
    body it was created with; and the log. *)
Record cluster : Type := {
  indices : list (string * pyval);
  journal : list log_record
}.

(** What [indices.exists] and [indices.create] raise, if anything (store
    unreachable, request refused). *)
Record replies : Type := {
  exists_raises : option exn;
  create_raises : option exn
}.

Definition quiet : replies := {| exists_raises := None; create_raises := None |}.

(** [mapping] *)
Definition mapping : pyval :=
  PDict
    [("mappings",
      PDict
        [("dynamic_templates",
          PList
            [PDict
               [("strings_as_keywords",
                 PDict [("match_mapping_type", PStr "string");
                        ("mapping", PDict [("type", PStr "keyword")])])]]);
         ("properties",
          PDict
            [("commit",
              PDict
                [("properties",
                  PDict
                    [("record",
                      PDict
                        [("properties",
                          PDict [("text", PDict [("type", PStr "text")])])])])])])])].

(** [await es_client.indices.exists(index=index_name)] *)
Definition indices_exists (index_name : string) (cl : cluster) : bool :=
  existsb (fun kv => (fst kv =? index_name)%string) (indices cl).

(** [create_index_with_dynamic_mapping]: nothing is caught, so what the
    store raises leaves the function. *)
Definition create_index_with_dynamic_mapping (r : replies) (index_name : string)
  (cl : cluster) : res unit * cluster :=
  match exists_raises r with
  | Some e => (Raise e, cl)
  | None =>
      if negb (indices_exists index_name cl)
      then
        match create_raises r with
        | Some e => (Raise e, cl)
        | None =>
            (Ret tt,
             {| indices := indices cl ++ [(index_name, mapping)];
                journal := journal cl ++
                  [Log INFO ("Index '" ++ index_name ++ "' created with dynamic mapping.")%string] |})
        end
      else
        (Ret tt,
         {| indices := indices cl;
            journal := journal cl ++
              [Log INFO ("Index '" ++ index_name ++ "' already exists.")%string] |})
  end.

End Startup.

(** [ELASTICSEARCH_INDEX] *)
Definition ELASTICSEARCH_INDEX : string := "bsky_feed_posts".


(** A store with no index yet. *)
Definition fresh_cluster : Startup.cluster :=
  {| Startup.indices := []; Startup.journal := [] |}.
(* ================================================================== *)
(** * Theorems: WebSocketClient *)

Lemma connect_and_listen_result url s :
  fst (WS.connect_and_listen url s) =
  match WS.ending s with
  | Some e => if is_Exception e then Ret tt else Raise e
  | None => Ret tt
  end.
Proof.
  unfold WS.connect_and_listen.
  destruct (WS.ending s) as [e|]; [destruct e|]; reflexivity.
Qed.

(** Nothing that is an [Exception] leaves [connect_and_listen]. *)
Lemma connect_and_listen_swallows url s e :
  fst (WS.connect_and_listen url s) = Raise e -> is_Exception e = false.
Proof.
  rewrite connect_and_listen_result.
  destruct (WS.ending s) as [e'|]; [|discriminate].
  destruct (is_Exception e') eqn:E; [discriminate|].
  intros [= <-]. exact E.
Qed.

(** One pass of the loop of [run], unfolded. *)
Lemma run_loop_pass c rd a env url :
  WS.running c = true ->
  nth_error (WS.urls c) (WS.current_url_index c) = Some url ->
  let r := fst (WS.connect_and_listen url (WS.conn a)) in
  let rd1 := WS.after_try rd r in
  let c' := {| WS.urls := WS.urls c;
               WS.current_url_index :=
                 ((WS.current_url_index c + 1) mod List.length (WS.urls c))%nat;
               WS.running := negb (WS.stop_called a) |} in
  exists p,
    WS.url_index p = WS.current_url_index c /\
    WS.outcome p = r /\
    WS.delay p = (inject_Z rd1 + WS.jitter a)%Q /\
    WS.run_loop c rd (a :: env) =
      match r with
      | Raise e =>
          if is_Exception e
          then let '(ps, x, cf, rf) := WS.run_loop c' (WS.next_delay rd1) env in
               (p :: ps, x, cf, rf)
          else ([p], WS.Propagated e, c', WS.next_delay rd1)
      | Ret _ =>
          let '(ps, x, cf, rf) := WS.run_loop c' (WS.next_delay rd1) env in
          (p :: ps, x, cf, rf)
      end.
Proof.
  intros Hrun Hurl. cbn zeta.
  cbn [WS.run_loop]. rewrite Hrun, Hurl. cbn [negb andb].
  destruct (WS.connect_and_listen url (WS.conn a)) as [r eff].
  cbn [fst WS.finally].
  eexists. repeat split; [..| destruct r as [u|e]; reflexivity]; reflexivity.
Qed.

Lemma next_index_lt (i n : nat) : (i < n)%nat -> ((i + 1) mod n < n)%nat.
Proof. intros H. apply Nat.mod_upper_bound. lia. Qed.

Lemma shift_index (i k n : nat) :
  (((i + 1) mod n + k) mod n = (i + S k) mod n)%nat.
Proof.
  rewrite Nat.Div0.add_mod_idemp_l. f_equal. lia.
Qed.

(** Every pass of the loop uses the index one after the previous pass's,
    modulo the pool size, however the pass ended. *)
Lemma run_loop_indices env :
  forall c rd passes x cf rf,
    (WS.current_url_index c < List.length (WS.urls c))%nat ->
    WS.run_loop c rd env = (passes, x, cf, rf) ->
    WS.urls cf = WS.urls c /\
    (forall i p, nth_error passes i = Some p ->
       WS.url_index p =
       ((WS.current_url_index c + i) mod List.length (WS.urls c))%nat) /\
    WS.current_url_index cf =
      ((WS.current_url_index c + List.length passes) mod List.length (WS.urls c))%nat.
Proof.
  induction env as [|a env IH]; intros c rd passes x cf rf Hlt Hrun.
  - cbn in Hrun. destruct (WS.running c); cbn in Hrun; injection Hrun as <- <- <- <-;
      (split; [reflexivity|split; [intros [|i] p; discriminate|]]);
      cbn; rewrite Nat.add_0_r, Nat.mod_small; auto.
  - destruct (WS.running c) eqn:Hr.
    2:{ cbn in Hrun. rewrite Hr in Hrun. cbn in Hrun. injection Hrun as <- <- <- <-.
        split; [reflexivity|split; [intros [|i] p; discriminate|]].
        cbn. rewrite Nat.add_0_r, Nat.mod_small; auto. }
    destruct (nth_error (WS.urls c) (WS.current_url_index c)) as [url|] eqn:Hu.
    2:{ apply nth_error_None in Hu. lia. }
    destruct (run_loop_pass c rd a env url Hr Hu) as (p & Hi & _ & _ & Heq).
    rewrite Heq in Hrun. clear Heq.
    set (c' := {| WS.urls := WS.urls c;
                  WS.current_url_index :=
                    ((WS.current_url_index c + 1) mod List.length (WS.urls c))%nat;
                  WS.running := negb (WS.stop_called a) |}) in *.
    assert (Hlt' : (WS.current_url_index c' < List.length (WS.urls c'))%nat)
      by (apply next_index_lt; exact Hlt).
    assert (Hrec : forall rd',
      (let '(ps, x, cf, rf) := WS.run_loop c' rd' env in (p :: ps, x, cf, rf))
        = (passes, x, cf, rf) ->
      WS.urls cf = WS.urls c /\
      (forall i q, nth_error passes i = Some q ->
         WS.url_index q =
         ((WS.current_url_index c + i) mod List.length (WS.urls c))%nat) /\
      WS.current_url_index cf =
        ((WS.current_url_index c + List.length passes) mod List.length (WS.urls c))%nat).
    { intros rd' H.
      destruct (WS.run_loop c' rd' env) as [[[ps x'] cf'] rf'] eqn:E.
      injection H as <- <- <- <-.
      destruct (IH c' rd' ps x' cf' rf' Hlt' E) as (Hu' & Hidx & Hfin).
      split; [exact Hu'|split].
      - intros [|i] q Hq; cbn in Hq.
        + injection Hq as <-. rewrite Hi, Nat.add_0_r, Nat.mod_small; auto.
        + rewrite (Hidx i q Hq). apply shift_index.
      - rewrite Hfin. cbn [List.length]. apply shift_index. }
    destruct (fst (WS.connect_and_listen url (WS.conn a))) as [u|e].
    + apply (Hrec _ Hrun).
    + destruct (is_Exception e).
      * apply (Hrec _ Hrun).
      * injection Hrun as <- <- <- <-.
        split; [reflexivity|split].
        -- intros [|[|i]] q Hq; cbn in Hq; try discriminate.
           injection Hq as <-. rewrite Hi, Nat.add_0_r, Nat.mod_small; auto.
        -- reflexivity.
Qed.

(** While the environment neither stops nor cancels the client, every
    attempt it supplies becomes a pass of the loop. *)
Lemma run_loop_progress env :
  forall c rd passes x cf rf,
    WS.running c = true ->
    (WS.current_url_index c < List.length (WS.urls c))%nat ->
    forallb survives env = true ->
    WS.run_loop c rd env = (passes, x, cf, rf) ->
    List.length passes = List.length env /\ x = WS.Suspended.
Proof.
  induction env as [|a env IH]; intros c rd passes x cf rf Hr Hlt Hs Hrun.
  - cbn in Hrun. rewrite Hr in Hrun. cbn in Hrun. injection Hrun as <- <- <- <-. auto.
  - cbn in Hs. apply andb_prop in Hs as [Ha Hs].
    unfold survives in Ha. apply andb_prop in Ha as [Hstop Hend].
    destruct (nth_error (WS.urls c) (WS.current_url_index c)) as [url|] eqn:Hu.
    2:{ apply nth_error_None in Hu. lia. }
    destruct (run_loop_pass c rd a env url Hr Hu) as (p & _ & _ & _ & Heq).
    rewrite Heq in Hrun. clear Heq.
    rewrite connect_and_listen_result in Hrun.
    set (c' := {| WS.urls := WS.urls c;
                  WS.current_url_index :=
                    ((WS.current_url_index c + 1) mod List.length (WS.urls c))%nat;
                  WS.running := negb (WS.stop_called a) |}) in *.
    assert (Hr' : WS.running c' = true) by exact Hstop.
    assert (Hlt' : (WS.current_url_index c' < List.length (WS.urls c'))%nat)
      by (apply next_index_lt; exact Hlt).
    assert (Hrec : forall rd',
      (let '(ps, x, cf, rf) := WS.run_loop c' rd' env in (p :: ps, x, cf, rf))
        = (passes, x, cf, rf) ->
      List.length passes = List.length (a :: env) /\ x = WS.Suspended).
    { intros rd' H.
      destruct (WS.run_loop c' rd' env) as [[[ps x'] cf'] rf'] eqn:E.
      injection H as <- <- <- <-.
      destruct (IH c' rd' ps x' cf' rf' Hr' Hlt' Hs E) as [Hl Hx].
      cbn [List.length]. auto. }
    destruct (WS.ending (WS.conn a)) as [e|].
    + rewrite Hend in Hrun. apply (Hrec _ Hrun).
    + apply (Hrec _ Hrun).
Qed.

Lemma window_hits (n k j : nat) :
  (j < n)%nat -> exists i, (k <= i < k + n)%nat /\ (i mod n = j)%nat.
Proof.
  intros Hj.
  assert (Hn : n <> 0%nat) by lia.
  pose proof (Nat.mod_upper_bound k n Hn) as Hr.
  exists (k + (j + n - k mod n) mod n)%nat. split.
  - pose proof (Nat.mod_upper_bound (j + n - k mod n) n Hn). lia.
  - rewrite Nat.Div0.add_mod_idemp_r.
    rewrite (Nat.div_mod_eq k n) at 1.
    replace (n * (k / n) + k mod n + (j + n - k mod n))%nat
      with (j + (1 + k / n) * n)%nat by nia.
    rewrite Nat.Div0.mod_add. apply Nat.mod_small. exact Hj.
Qed.

(** C8. Endpoint selection is round-robin over the ordered pool: whatever
    way a connect-and-listen cycle ends, the current endpoint index moves on
    by exactly one position modulo the pool size, so consecutive
    disconnects visit the whole pool in order and every endpoint is used
    once in any [n] passes in a row. *)
Theorem run_round_robin (urls : list string) (env : list WS.attempt) :
  urls <> [] ->
  round_robin urls env (WS.run (WS.init urls) env).
Proof.
  intros Hne. unfold WS.run.
  assert (Hlt : (WS.current_url_index (WS.init urls)
                 < List.length (WS.urls (WS.init urls)))%nat).
  { cbn. destruct urls; [contradiction|cbn; lia]. }
  destruct (WS.run_loop (WS.init urls) 1 env) as [[[passes x] cf] rf] eqn:E.
  destruct (run_loop_indices env _ _ _ _ _ _ Hlt E) as (_ & Hidx & Hfin).
  cbn [WS.init WS.urls WS.current_url_index] in Hidx, Hfin.
  unfold round_robin, passes_of, client_of. cbn [fst snd].
  repeat split.
  - intros i p Hp. exact (Hidx i p Hp).
  - intros i p q Hp Hq. rewrite (Hidx _ _ Hp), (Hidx _ _ Hq). cbn [Nat.add].
    rewrite Nat.Div0.add_mod_idemp_l. f_equal. lia.
  - exact Hfin.
  - intros Hs.
    exact (proj1 (run_loop_progress env (WS.init urls) _ _ _ _ _ eq_refl Hlt Hs E)).
  - intros k j Hj Hk.
    destruct (window_hits (List.length urls) k j Hj) as (i & Hi & Hm).
    destruct (nth_error passes i) as [p|] eqn:Hp.
    + exists i, p. split; [lia|]. split; [exact Hp|].
      rewrite (Hidx _ _ Hp). exact Hm.
    + apply nth_error_None in Hp. lia.
Qed.

Lemma run_round_robin_witness :
  EXTERNAL_WS_URLS <> [] /\
  round_robin EXTERNAL_WS_URLS (three_refusals ++ three_refusals)
    (WS.run (WS.init EXTERNAL_WS_URLS) (three_refusals ++ three_refusals)).
Proof.
  split; [discriminate|].
  apply (run_round_robin EXTERNAL_WS_URLS (three_refusals ++ three_refusals)). discriminate.
Defined.

(** The run above visits the endpoints 0, 1, 2, 3, 0, 1. *)
Example six_refusals_rotate :
  map WS.url_index
    (passes_of (WS.run (WS.init EXTERNAL_WS_URLS) (three_refusals ++ three_refusals)))
  = [0; 1; 2; 3; 0; 1]%nat.
Proof. reflexivity. Qed.

(** Had the exception of a failed attempt reached [run], its loop would
    double the delay up to the cap: after [k] such passes [retry_delay] is
    [min(2^k, 60)]. *)
Lemma doubled_closed (k : nat) : doubled k 1 = Z.min (2 ^ Z.of_nat k) 60.
Proof.
  induction k as [|k IH].
  - reflexivity.
  - change (doubled (S k) 1) with (Z.min (doubled k 1 * 2) 60). rewrite IH.
    rewrite Nat2Z.inj_succ, Z.pow_succ_r by lia.
    assert (0 < 2 ^ Z.of_nat k) by (apply Z.pow_pos_nonneg; lia).
    lia.
Qed.

(** That is the delay asked for before the next retry. *)
Lemma doubled_is_spec_backoff (k : nat) :
  doubled k 1 = spec_backoff (Z.of_nat k + 1).
Proof.
  rewrite doubled_closed. unfold spec_backoff.
  replace (Z.of_nat k + 1 - 1) with (Z.of_nat k) by lia.
  now rewrite Z.mul_1_l.
Qed.

(** In [run] as written, a pass whose connection closed or failed with an
    [Exception] sleeps [1 + jitter]: [connect_and_listen] returned, so the
    [try] body went on to [retry_delay = 1]. *)
Lemma run_loop_delay_initial env :
  forall c rd passes x cf rf,
    WS.run_loop c rd env = (passes, x, cf, rf) ->
    forall i p a,
      nth_error passes i = Some p -> nth_error env i = Some a ->
      match WS.ending (WS.conn a) with
      | Some e => is_Exception e
      | None => true
      end = true ->
      WS.outcome p = Ret tt /\ WS.delay p = (inject_Z 1 + WS.jitter a)%Q.
Proof.
  induction env as [|a0 env IH]; intros c rd passes x cf rf Hrun i p a Hp Ha Hend.
  - destruct i; discriminate.
  - destruct (WS.running c) eqn:Hr.
    2:{ cbn in Hrun. rewrite Hr in Hrun. cbn in Hrun. injection Hrun as <- <- <- <-.
        destruct i; discriminate. }
    destruct (nth_error (WS.urls c) (WS.current_url_index c)) as [url|] eqn:Hu.
    2:{ cbn in Hrun. rewrite Hr, Hu in Hrun. cbn in Hrun. injection Hrun as <- <- <- <-.
        destruct i; discriminate. }
    destruct (run_loop_pass c rd a0 env url Hr Hu) as (p0 & _ & Ho & Hd & Heq).
    rewrite Heq in Hrun. clear Heq.
    rewrite connect_and_listen_result in Ho, Hd, Hrun.
    set (c' := {| WS.urls := WS.urls c;
                  WS.current_url_index :=
                    ((WS.current_url_index c + 1) mod List.length (WS.urls c))%nat;
                  WS.running := negb (WS.stop_called a0) |}) in *.
    assert (Hrec : forall rd',
      (let '(ps, x, cf, rf) := WS.run_loop c' rd' env in (p0 :: ps, x, cf, rf))
        = (passes, x, cf, rf) ->
      match WS.ending (WS.conn a0) with
      | Some e => is_Exception e
      | None => true
      end = true \/ (0 < i)%nat ->
      WS.outcome p = Ret tt /\ WS.delay p = (inject_Z 1 + WS.jitter a)%Q).
    { intros rd' H Hcase.
      destruct (WS.run_loop c' rd' env) as [[[ps x'] cf'] rf'] eqn:E.
      injection H as <- <- <- <-.
      destruct i as [|i]; cbn in Hp, Ha.
      - injection Hp as <-. injection Ha as <-.
        destruct (WS.ending (WS.conn a0)) as [e|].
        + rewrite Hend in Ho, Hd. auto.
        + auto.
      - exact (IH c' rd' ps x' cf' rf' E i p a Hp Ha Hend). }
    destruct (WS.ending (WS.conn a0)) as [e|] eqn:He.
    + destruct (is_Exception e) eqn:Hex.
      * apply (Hrec _ Hrun). auto.
      * cbv beta iota in Hrun. rewrite Hex in Hrun. injection Hrun as <- <- <- <-.
        destruct i as [|[|i]]; cbn in Hp, Ha; try discriminate.
        injection Ha as <-. rewrite He, Hex in Hend. discriminate.
    + apply (Hrec _ Hrun). auto.
Qed.

(** C1. Three connection attempts in a row are refused ([OSError] from
    [websockets.connect]).  [connect_and_listen] catches the exception and
    returns, so [run] resets [retry_delay] on every pass and sleeps
    1 + jitter each time, where [min(2^(k-1), 60)] + jitter, that is 1, 2
    and 4 seconds plus jitter, is asked for. *)
Theorem refused_thrice_no_backoff :
  let passes := passes_of (WS.run (WS.init EXTERNAL_WS_URLS) three_refusals) in
  map WS.outcome passes = [Ret tt; Ret tt; Ret tt] /\
  map WS.delay passes =
    [inject_Z 1 + (1 # 4); inject_Z 1 + (1 # 2); inject_Z 1 + (3 # 4)]%Q /\
  map spec_backoff [1; 2; 3] = [1; 2; 4] /\
  map (fun k => doubled k 1) [0; 1; 2]%nat = [1; 2; 4].
Proof. repeat split. Qed.

(* ================================================================== *)
(** * Theorems: the ingest queue *)

Lemma step_held a s s' :
  IQ.step a s = Some s' -> held s' = held s ++ IQ.received [a].
Proof.
  unfold IQ.step.
  destruct a as [m| | |]; cbn [IQ.received];
    destruct (IQ.prod s) as [|m'] eqn:Hp; try discriminate.
  - destruct (IQ.full (IQ.queue s)); intros [= <-]; unfold held; cbn;
      rewrite Hp; cbn; rewrite ?app_nil_r, <- ?app_assoc; reflexivity.
  - destruct (IQ.full (IQ.queue s)); [discriminate|]. intros [= <-].
    unfold held; cbn. rewrite Hp. cbn.
    rewrite !app_nil_r, <- ?app_assoc. reflexivity.
  - destruct (IQ.items (IQ.queue s)) as [|x rest] eqn:Hi; [discriminate|].
    intros [= <-]. unfold held. cbn. rewrite Hp, Hi. cbn.
    rewrite !app_nil_r, <- app_assoc. reflexivity.
  - destruct (IQ.items (IQ.queue s)) as [|x rest] eqn:Hi; [discriminate|].
    intros [= <-]. unfold held. cbn. rewrite Hp, Hi. cbn.
    rewrite !app_nil_r, <- app_assoc. reflexivity.
  - destruct (IQ.items (IQ.queue s)) as [|x rest] eqn:Hi; [|discriminate].
    intros [= <-]. now rewrite app_nil_r.
  - destruct (IQ.items (IQ.queue s)) as [|x rest] eqn:Hi; [|discriminate].
    intros [= <-]. now rewrite app_nil_r.
Qed.

Lemma step_bounded a s s' :
  bounded s -> IQ.step a s = Some s' -> bounded s'.
Proof.
  unfold bounded, IQ.step, IQ.full, IQ.qsize. intros [Hm Hq].
  destruct a as [m| | |], (IQ.prod s) as [|m']; try discriminate;
    try (rewrite Hm; cbn [Z.leb Z.compare];
         destruct (100000 <=? Z.of_nat (List.length (IQ.items (IQ.queue s)))) eqn:Hf;
         try discriminate; intros [= <-]; cbn; rewrite ?length_app; cbn; split; lia);
    try (destruct (IQ.items (IQ.queue s)) as [|x rest] eqn:Hi; try discriminate;
         intros [= <-]; cbn in *; rewrite ?Hi; cbn; split; lia).
Qed.

Lemma exec_invariant acts :
  forall s s', bounded s -> IQ.exec acts s = Some s' ->
    bounded s' /\ held s' = held s ++ IQ.received acts.
Proof.
  induction acts as [|a acts IH]; intros s s' Hb Hx; cbn in Hx.
  - injection Hx as <-. split; [exact Hb|]. cbn. now rewrite app_nil_r.
  - destruct (IQ.step a s) as [s1|] eqn:Hs; [|discriminate].
    destruct (IH s1 s' (step_bounded _ _ _ Hb Hs) Hx) as [Hb' Hh].
    split; [exact Hb'|].
    rewrite Hh, (step_held _ _ _ Hs), <- app_assoc. f_equal.
    destruct a; reflexivity.
Qed.

Lemma bounded_backpressure s : bounded s -> backpressure s.
Proof.
  unfold bounded, backpressure, IQ.step. intros [Hm Hq].
  split; [|split; [|split]].
  - intros m Hp Hf. now rewrite Hp, Hf.
  - intros m Hp Hf. now rewrite Hp, Hf.
  - intros m Hp Hf. now rewrite Hp, Hf.
  - intros s' _ Hg.
    assert (Hs : exists x rest,
               IQ.items (IQ.queue s) = x :: rest /\
               s' = {| IQ.queue := {| IQ.maxsize := IQ.maxsize (IQ.queue s);
                                      IQ.items := rest |};
                       IQ.prod := IQ.prod s;
                       IQ.taken := IQ.taken s ++ [x] |}).
    { destruct (IQ.items (IQ.queue s)) as [|x rest].
      - destruct (IQ.prod s); discriminate.
      - exists x, rest. split; [reflexivity|].
        destruct (IQ.prod s); injection Hg as <-; reflexivity. }
    destruct Hs as (x & rest & Hi & ->). split; [|reflexivity].
    unfold IQ.full, IQ.qsize in *. cbn. rewrite Hm. cbn [Z.leb Z.compare].
    rewrite Hi in Hq. cbn [List.length] in Hq. apply Z.leb_gt. lia.
Qed.

Lemma exec_app acts1 acts2 s :
  IQ.exec (acts1 ++ acts2) s =
  match IQ.exec acts1 s with
  | Some s' => IQ.exec acts2 s'
  | None => None
  end.
Proof.
  revert s. induction acts1 as [|a acts1 IH]; intros s; cbn; [reflexivity|].
  destruct (IQ.step a s); auto.
Qed.

(** While there is room, each delivered frame is buffered at once. *)
Lemma exec_fill m k :
  forall buffered tk,
    Z.of_nat (List.length buffered) + Z.of_nat k <= 100000 ->
    IQ.exec (repeat (IQ.Receive m) k)
      {| IQ.queue := {| IQ.maxsize := 100000; IQ.items := buffered |};
         IQ.prod := IQ.Listening; IQ.taken := tk |}
    = Some {| IQ.queue := {| IQ.maxsize := 100000;
                             IQ.items := buffered ++ repeat m k |};
              IQ.prod := IQ.Listening; IQ.taken := tk |}.
Proof.
  induction k as [|k IH]; intros buffered tk Hroom.
  - cbn. now rewrite app_nil_r.
  - cbn [repeat IQ.exec]. unfold IQ.step. cbn [IQ.prod IQ.queue].
    unfold IQ.full, IQ.qsize. cbn [IQ.maxsize IQ.items Z.leb Z.compare].
    destruct (100000 <=? Z.of_nat (List.length buffered)) eqn:Hf;
      [apply Z.leb_le in Hf; lia|].
    unfold IQ.enqueue. cbn [IQ.maxsize IQ.items IQ.taken].
    rewrite IH by (rewrite length_app; cbn [List.length]; lia).
    now rewrite <- app_assoc.
Qed.

(** The full queue is reached: after 100000 frames that no worker took,
    the next [put] leaves the producer suspended with its message. *)
Lemma queue_fills_then_suspends m m' :
  IQ.exec (repeat (IQ.Receive m) (Z.to_nat 100000) ++ [IQ.Receive m']) IQ.start
  = Some {| IQ.queue := {| IQ.maxsize := 100000;
                           IQ.items := repeat m (Z.to_nat 100000) |};
            IQ.prod := IQ.Putting m'; IQ.taken := [] |}.
Proof.
  rewrite exec_app.
  change IQ.start with
    {| IQ.queue := {| IQ.maxsize := 100000; IQ.items := [] |};
       IQ.prod := IQ.Listening; IQ.taken := [] |}.
  rewrite exec_fill by (cbn [List.length]; rewrite Z2Nat.id; lia).
  cbn [app IQ.exec]. unfold IQ.step. cbn [IQ.prod IQ.queue].
  unfold IQ.full, IQ.qsize. cbn [IQ.maxsize IQ.items Z.leb Z.compare].
  rewrite repeat_length, Z2Nat.id by lia. reflexivity.
Qed.

(** C4. At every point of an execution the ingest queue holds at most the
    100000 messages it was created for; a [put] on the full queue suspends
    the producer until a [get] frees space; and no message is dropped:
    what the connection delivered is, in order, what the workers took,
    what is buffered and what the suspended [put] holds. *)
Theorem queue_bounded_lossless (acts : list IQ.action) (s : IQ.sys) :
  IQ.exec acts IQ.start = Some s ->
  IQ.qsize (IQ.queue s) <= 100000 /\
  IQ.received acts = held s /\
  backpressure s.
Proof.
  intros Hx.
  assert (Hb : bounded IQ.start) by (split; [reflexivity|cbn; lia]).
  destruct (exec_invariant acts _ _ Hb Hx) as [Hb' Hh].
  split; [exact (proj2 Hb')|]. split.
  - rewrite Hh. reflexivity.
  - exact (bounded_backpressure _ Hb').
Qed.

Lemma queue_bounded_lossless_witness :
  IQ.exec sample_schedule IQ.start = Some sample_sys /\
  (IQ.qsize (IQ.queue sample_sys) <= 100000 /\
   IQ.received sample_schedule = held sample_sys /\
   backpressure sample_sys).
Proof.
  split; [reflexivity|].
  apply (queue_bounded_lossless sample_schedule sample_sys). reflexivity.
Defined.

(* ================================================================== *)
(** * Theorems: values, dicts and the store *)

Lemma pyval_eqb_refl : forall v, pyval_eqb v v = true.
Proof.
  fix IH 1. intros [ |b|n|s|xs|kvs|t]; cbn.
  - reflexivity.
  - apply Bool.eqb_reflx.
  - apply Z.eqb_refl.
  - apply String.eqb_refl.
  - induction xs as [|x xs IHxs]; [reflexivity|].
    rewrite IH, IHxs. reflexivity.
  - induction kvs as [|[k x] kvs IHkvs]; [reflexivity|].
    rewrite String.eqb_refl, IH, IHkvs. reflexivity.
  - apply Z.eqb_refl.
Qed.

Lemma dict_get_set_same k v d : dict_get k (dict_set k v d) = Some v.
Proof.
  induction d as [|[k' v'] d IH]; cbn.
  - now rewrite String.eqb_refl.
  - destruct (k' =? k)%string eqn:E; cbn; rewrite E; auto.
Qed.

Lemma dict_get_set_other k k' v d :
  k <> k' -> dict_get k (dict_set k' v d) = dict_get k d.
Proof.
  intros Hne. induction d as [|[k0 v0] d IH]; cbn.
  - destruct (k' =? k)%string eqn:E; [|reflexivity].
    apply String.eqb_eq in E. congruence.
  - destruct (k0 =? k')%string eqn:E; cbn.
    + apply String.eqb_eq in E. subst k0.
      destruct (k' =? k)%string eqn:E'; [|reflexivity].
      apply String.eqb_eq in E'. congruence.
    + destruct (k0 =? k)%string; auto.
Qed.

(** The enriched document is the event with [post_url] and [record_time]
    set and every other field as it was. *)
Lemma enriched_fields d url ts :
  dict_get "post_url" (enriched d url ts) = Some (PStr url) /\
  dict_get "record_time" (enriched d url ts) = Some (PDatetime ts) /\
  (forall k, k <> "post_url" -> k <> "record_time" ->
     dict_get k (enriched d url ts) = dict_get k d).
Proof.
  unfold enriched. repeat split.
  - rewrite dict_get_set_other by discriminate. apply dict_get_set_same.
  - apply dict_get_set_same.
  - intros k H1 H2. now rewrite !dict_get_set_other.
Qed.

Lemma stored_under_upsert id doc st : stored_under id (upsert id doc st) = 1%nat.
Proof.
  unfold stored_under, upsert. rewrite filter_app, length_app. cbn.
  rewrite pyval_eqb_refl. cbn.
  replace (filter (fun kv => pyval_eqb (fst kv) id)
             (filter (fun kv => negb (pyval_eqb (fst kv) id)) st))
    with (@nil (pyval * pyval)); [reflexivity|].
  induction st as [|kv st IH]; [reflexivity|]. cbn.
  destruct (pyval_eqb (fst kv) id) eqn:E; cbn; [exact IH|].
  rewrite E. exact IH.
Qed.

(** After two accepted writes under one id, the index holds the later
    document under that id and no trace of the earlier one. *)
Lemma upsert_twice id doc1 doc2 st :
  stored_under id (upsert id doc2 (upsert id doc1 st)) = 1%nat /\
  upsert id doc2 (upsert id doc1 st) = upsert id doc2 st.
Proof.
  split; [apply stored_under_upsert|].
  unfold upsert. f_equal. rewrite filter_app. cbn.
  rewrite pyval_eqb_refl. cbn. rewrite app_nil_r.
  induction st as [|kv st IH]; [reflexivity|]. cbn.
  destruct (pyval_eqb (fst kv) id) eqn:E; cbn; [exact IH|].
  rewrite E. cbn. now rewrite IH.
Qed.

(* ================================================================== *)
(** * Theorems: MessageProcessor *)

Section Processor.

Context `{RT : Runtime}.

Ltac unfold_m :=
  unfold bind, lift, ret, raise, try_except, logging, task_done.

Lemma field_text_get d k : py_format (get_or d k (PStr "")) = field_text d k.
Proof. unfold get_or, field_text. destruct (dict_get k d); reflexivity. Qed.

(** The id of a dict whose [commit] is a dict. *)
Lemma doc_id_dict d c w :
  get_or d "commit" (PDict []) = PDict c ->
  MP.doc_id (PDict d) w = (Ret (document_id d c), w).
Proof.
  intros Hc. unfold MP.doc_id, document_id. unfold_m. cbn. rewrite Hc. cbn.
  destruct (truthy (get_or c "cid" PNone)); [reflexivity|].
  now rewrite !field_text_get.
Qed.

(** [index_data] with a client: one call to the store, whose reply decides
    between the info line, the error line and a cancellation. *)
Lemma index_data_call p a data id w :
  MP.es_client p = true ->
  MP.doc_id data w = (Ret id, w) ->
  MP.index_data p a data w = index_outcome a id data w.
Proof.
  intros Hc Hid. unfold MP.index_data, index_outcome. rewrite Hc. cbn [negb].
  unfold try_except, bind at 1. rewrite Hid.
  unfold bind, es_index, logging.
  destruct (es_reply a id data) as [e|]; reflexivity.
Qed.

(** [get_timestamp] on the [time_us] entry of an event. *)
Lemma get_timestamp_stamp a (tu : option pyval) ts w :
  stamp a tu ts ->
  exists w1,
    MP.get_timestamp a (match tu with Some v => v | None => PNone end) w
      = (Ret ts, w1) /\
    maybe_warned w w1.
Proof.
  unfold MP.get_timestamp, MP.fromtimestamp, maybe_warned. unfold_m.
  intros H. destruct H as [ | | |n t Hn Ht|n e Hn Ht He| |t Ht|e Ht He|v Hv]; cbn.
  - eauto.
  - eauto.
  - eauto.
  - destruct (n =? 0) eqn:E; [apply Z.eqb_eq in E; contradiction|]. cbn.
    rewrite Ht. eauto.
  - destruct (n =? 0) eqn:E; [apply Z.eqb_eq in E; contradiction|]. cbn.
    rewrite Ht. cbn. rewrite He. eauto.
  - eauto.
  - rewrite Ht. eauto.
  - rewrite Ht. cbn. rewrite He. eauto.
  - destruct v as [ |b|n|s|xs|kvs|t]; try discriminate; cbn; eauto.
    + destruct s; cbn; eauto.
    + destruct xs; cbn; eauto.
    + destruct kvs; cbn; eauto.
Qed.

(** Conversely, [stamp] misses no entry for which [get_timestamp]
    returns. *)
Lemma get_timestamp_returns a (tu : option pyval) ts w w1 :
  MP.get_timestamp a (match tu with Some v => v | None => PNone end) w
    = (Ret ts, w1) ->
  stamp a tu ts.
Proof.
  unfold MP.get_timestamp, MP.fromtimestamp. unfold_m.
  destruct tu as [v|]; [|cbn; intros [= <- _]; apply stamp_absent].
  destruct v as [ |b|n|s|xs|kvs|t]; cbn.
  - intros [= <- _]. apply stamp_null.
  - destruct b; cbn.
    + destruct (utc_fromtimestamp 1) as [t|e] eqn:E; cbn.
      * intros [= <- _]. now apply stamp_true.
      * destruct (MP.is_ValueError_or_TypeError e) eqn:He; [|discriminate].
        intros [= <- _]. now apply (stamp_true_rejected a e).
    + intros [= <- _]. apply stamp_false.
  - destruct (n =? 0) eqn:E0; cbn.
    + apply Z.eqb_eq in E0 as ->. intros [= <- _]. apply stamp_zero.
    + apply Z.eqb_neq in E0.
      destruct (utc_fromtimestamp n) as [t|e] eqn:E; cbn.
      * intros [= <- _]. now apply stamp_converted.
      * destruct (MP.is_ValueError_or_TypeError e) eqn:He; [|discriminate].
        intros [= <- _]. now apply (stamp_rejected a n e).
  - destruct s; cbn; intros [= <- _]; now apply stamp_not_a_number.
  - destruct xs; cbn; intros [= <- _]; now apply stamp_not_a_number.
  - destruct kvs; cbn; intros [= <- _]; now apply stamp_not_a_number.
  - intros [= <- _]; now apply stamp_not_a_number.
Qed.

(** [process_message] on a dict whose [commit] and [record] are dicts. *)
Lemma process_message_dict p a d c r w :
  get_or d "commit" (PDict []) = PDict c ->
  get_or c "record" (PDict []) = PDict r ->
  MP.process_message p a (PDict d) w =
  match MP.is_language_allowed p (get_or r "langs" (PList [])) with
  | Raise e => (Raise e, w)
  | Ret false => (Ret tt, w)
  | Ret true =>
      match MP.get_timestamp a (get_or d "time_us" PNone) w with
      | (Ret ts, w1) =>
          MP.index_data p a
            (PDict (enriched d
                      (post_url (py_format (get_or d "did" (PStr "unknown")))
                                (py_format (get_or c "rkey" (PStr "unknown"))))
                      ts)) w1
      | (Raise e, w1) => (Raise e, w1)
      end
  end.
Proof.
  intros Hc Hr. unfold MP.process_message. unfold bind, lift, ret.
  cbn [py_get]. rewrite Hc. cbn [py_get]. rewrite Hr. cbn [py_get].
  destruct (MP.is_language_allowed p (get_or r "langs" (PList []))) as [[|]|e];
    cbn [negb]; reflexivity.
Qed.

Lemma get_timestamp_footprint a v w :
  maybe_warned w (snd (MP.get_timestamp a v w)).
Proof.
  unfold MP.get_timestamp, MP.fromtimestamp, maybe_warned. unfold_m.
  destruct (truthy v); [|now left].
  destruct v as [ |b|n|s|xs|kvs|t]; cbn; auto;
    match goal with
    | |- context [utc_fromtimestamp ?n] =>
        destruct (utc_fromtimestamp n) as [t'|e]; cbn; auto;
        destruct e; cbn; auto
    end.
Qed.

Lemma doc_id_pure data w : snd (MP.doc_id data w) = w.
Proof.
  unfold MP.doc_id. unfold_m.
  destruct data as [ |b|n|s|xs|d|t]; cbn; try reflexivity.
  destruct (get_or d "commit" (PDict [])) as [ |b|n|s|xs|c|t]; cbn;
    try reflexivity.
  destruct (truthy (get_or c "cid" PNone)); reflexivity.
Qed.

Lemma index_data_footprint p a data w :
  at_most_one_call w (snd (MP.index_data p a data w)).
Proof.
  unfold at_most_one_call.
  destruct (MP.es_client p) eqn:Hc.
  2:{ unfold MP.index_data. rewrite Hc. left; split; reflexivity. }
  pose proof (doc_id_pure data w) as Hp.
  destruct (MP.doc_id data w) as [[id|e] w0] eqn:Hd; cbn in Hp; subst w0.
  - rewrite (index_data_call p a data id w Hc Hd). unfold index_outcome.
    right. exists id, data.
    destruct (es_reply a id data) as [e|].
    + destruct (is_Exception e); (split; [reflexivity|left; reflexivity]).
    + split; [reflexivity|right; reflexivity].
  - unfold MP.index_data. rewrite Hc. cbn [negb].
    unfold try_except, bind. rewrite Hd.
    destruct (is_Exception e); left; split; reflexivity.
Qed.

Lemma at_most_one_call_warned w w1 w2 :
  maybe_warned w w1 -> at_most_one_call w1 w2 -> at_most_one_call w w2.
Proof.
  intros [->| ->]; [auto|]. unfold at_most_one_call. cbn. auto.
Qed.

Lemma process_message_footprint p a data w :
  at_most_one_call w (snd (MP.process_message p a data w)).
Proof.
  assert (Hid : at_most_one_call w w) by (left; split; reflexivity).
  destruct data as [ |b|n|s|xs|d|t]; try exact Hid.
  destruct (get_or d "commit" (PDict [])) as [ |b|n|s|xs|c|t] eqn:Hc;
    try (unfold MP.process_message, bind, lift; cbn [py_get]; rewrite Hc;
         exact Hid).
  destruct (get_or c "record" (PDict [])) as [ |b|n|s|xs|r|t] eqn:Hr;
    try (unfold MP.process_message, bind, lift; cbn [py_get]; rewrite Hc;
         cbn [py_get]; rewrite Hr; exact Hid).
  rewrite (process_message_dict p a d c r w Hc Hr).
  destruct (MP.is_language_allowed p (get_or r "langs" (PList []))) as [[|]|e];
    try exact Hid.
  pose proof (get_timestamp_footprint a (get_or d "time_us" PNone) w) as Hw.
  destruct (MP.get_timestamp a (get_or d "time_us" PNone) w) as [[ts|e] w1];
    cbn [snd] in Hw.
  - eapply at_most_one_call_warned; [exact Hw|]. apply index_data_footprint.
  - eapply at_most_one_call_warned; [exact Hw|]. left; split; reflexivity.
Qed.

Lemma handle_message_footprint p a message w :
  at_most_one_call w (snd (MP.handle_message p a message w)).
Proof.
  unfold MP.handle_message, try_except, bind at 1.
  destruct (json_loads message) as [data|e]; unfold ret, raise.
  - pose proof (process_message_footprint p a data w) as H.
    destruct (MP.process_message p a data w) as [[u|e] w1]; cbn [snd] in *.
    + exact H.
    + destruct (MP.is_JSONDecodeError e); [|exact H].
      unfold logging. cbn. destruct H as [[H1 H2]|H]; [left|right]; auto.
  - destruct (MP.is_JSONDecodeError e); left; split; reflexivity.
Qed.

(** One item of the queue, as [worker] treats it. *)
Lemma worker_item p a message evs w :
  MP.running p = true ->
  MP.worker p (MP.Got message a :: evs) w =
  match MP.handle_message p a message w with
  | (Ret _, w1) => MP.worker p evs (ack w1)
  | (Raise e, w1) =>
      if is_Exception e
      then MP.worker p evs (ack (add_log handling_failure w1))
      else match e with
           | CancelledError =>
               (MP.Broke, p,
                add_log (Log INFO "Worker task cancelled. Exiting...") (ack w1))
           | _ => (MP.Propagated e, p, ack w1)
           end
  end.
Proof.
  intros Hr. unfold MP.worker. cbn [MP.worker_loop]. rewrite Hr.
  cbn [negb andb].
  unfold MP.handle_item, try_except.
  destruct (MP.handle_message p a message w) as [[u|e] w1]; [reflexivity|].
  destruct e; reflexivity.
Qed.

End Processor.

Section Worker.

Context `{RT : Runtime}.

(** C5. A raw message that fails to decode as JSON is logged as a decode
    failure by [handle_message] and dropped: the store is not called, the
    index is unchanged, the item is acknowledged, and the worker goes on
    to the rest of its queue. *)
Theorem malformed_message_dropped p a message evs w :
  MP.running p = true ->
  json_loads message = LoadError JSONDecodeError ->
  MP.handle_message p a message w = (Ret tt, add_log decode_failure w) /\
  MP.worker p (MP.Got message a :: evs) w =
    MP.worker p evs (ack (add_log decode_failure w)) /\
  calls (ack (add_log decode_failure w)) = calls w /\
  store (ack (add_log decode_failure w)) = store w.
Proof.
  intros Hr Hl.
  assert (Hh : MP.handle_message p a message w
               = (Ret tt, add_log decode_failure w)).
  { unfold MP.handle_message, try_except, bind. rewrite Hl. reflexivity. }
  split; [exact Hh|]. split; [|split; reflexivity].
  rewrite (worker_item p a message evs w Hr), Hh. reflexivity.
Qed.

(** A payload the decoder rejects with any other exception (bytes that are
    not UTF-8, nesting too deep) is dropped likewise, the error line coming
    from [worker]. *)
Lemma undecodable_message_dropped p a message evs w e :
  MP.running p = true ->
  json_loads message = LoadError e ->
  is_Exception e = true ->
  exists line,
    lvl line = ERROR /\
    MP.worker p (MP.Got message a :: evs) w =
      MP.worker p evs (ack (add_log line w)).
Proof.
  intros Hr Hl He.
  rewrite (worker_item p a message evs w Hr).
  unfold MP.handle_message, try_except, bind. rewrite Hl. unfold raise.
  destruct (MP.is_JSONDecodeError e).
  - exists decode_failure. split; reflexivity.
  - rewrite He. exists handling_failure. split; reflexivity.
Qed.

(** C6. Whatever exception the handling of one message raises, [worker]
    catches it at the message boundary, logs it, acknowledges the item and
    goes on; the store is called at most once per message (no retry); and
    a failing write is caught and logged by [index_data] itself, leaving
    the index as it was. *)
Theorem message_errors_contained p a message evs w :
  MP.running p = true ->
  (forall e w1,
     MP.handle_message p a message w = (Raise e, w1) ->
     is_Exception e = true ->
     MP.worker p (MP.Got message a :: evs) w =
       MP.worker p evs (ack (add_log handling_failure w1))) /\
  (forall w1,
     MP.handle_message p a message w = (Ret tt, w1) ->
     MP.worker p (MP.Got message a :: evs) w = MP.worker p evs (ack w1)) /\
  at_most_one_call w (snd (MP.handle_message p a message w)) /\
  (forall data id e w0,
     MP.es_client p = true ->
     MP.doc_id data w0 = (Ret id, w0) ->
     es_reply a id data = Some e ->
     is_Exception e = true ->
     MP.index_data p a data w0
       = (Ret tt, add_log index_failure (add_call id data w0)) /\
     store (add_log index_failure (add_call id data w0)) = store w0).
Proof.
  intros Hr. split; [|split; [|split]].
  - intros e w1 Hh He.
    rewrite (worker_item p a message evs w Hr), Hh, He. reflexivity.
  - intros w1 Hh.
    rewrite (worker_item p a message evs w Hr), Hh. reflexivity.
  - apply handle_message_footprint.
  - intros data id e w0 Hc Hid Hrep He. split; [|reflexivity].
    rewrite (index_data_call p a data id w0 Hc Hid). unfold index_outcome.
    rewrite Hrep, He. reflexivity.
Qed.

End Worker.

(** The decoder of the sample runtime rejects the payload ["{"]. *)
Lemma malformed_message_dropped_witness :
  MP.running english_only = true /\
  json_loads "{" = LoadError JSONDecodeError /\
  (MP.handle_message english_only (calm 0) "{" empty_world
     = (Ret tt, add_log decode_failure empty_world) /\
   MP.worker english_only [MP.Got "{" (calm 0); MP.TimedOut] empty_world =
     MP.worker english_only [MP.TimedOut] (ack (add_log decode_failure empty_world)) /\
   calls (ack (add_log decode_failure empty_world)) = calls empty_world /\
   store (ack (add_log decode_failure empty_world)) = store empty_world).
Proof.
  split; [reflexivity|]. split; [reflexivity|].
  apply (malformed_message_dropped english_only (calm 0) "{" [MP.TimedOut] empty_world);
    reflexivity.
Defined.

(** A payload that decodes to a list makes [process_message] raise
    [AttributeError]; the worker logs it and handles the next item. *)
Example list_payload_survived :
  MP.worker english_only [MP.Got "[]" (calm 0); MP.Got "{" (calm 0)] empty_world
  = (MP.Suspended, english_only,
     {| log := [handling_failure; decode_failure];
        calls := []; store := []; acked := 2 |}).
Proof. reflexivity. Qed.

(* ================================================================== *)
(** * Theorems: filtering, enrichment and document ids *)

Section Pipeline.

Context `{RT : Runtime}.

Lemma record_of_inv data v :
  record_of data = Ret v ->
  exists d c,
    data = PDict d /\ get_or d "commit" (PDict []) = PDict c /\
    v = get_or c "record" (PDict []).
Proof.
  unfold record_of, commit_field, commit_of.
  destruct data as [ |b|n|s|xs|d|t]; cbn; try discriminate.
  destruct (get_or d "commit" (PDict [])) as [ |b|n|s|xs|c|t] eqn:Hc; cbn;
    try discriminate.
  intros [= <-]. eauto.
Qed.

Lemma langs_of_inv data v :
  langs_of data = Ret v ->
  exists d c r,
    data = PDict d /\ get_or d "commit" (PDict []) = PDict c /\
    get_or c "record" (PDict []) = PDict r /\
    v = get_or r "langs" (PList []).
Proof.
  unfold langs_of. destruct (record_of data) as [rec|e] eqn:Hr; [|discriminate].
  destruct (record_of_inv _ _ Hr) as (d & c & -> & Hc & ->).
  destruct (get_or c "record" (PDict [])) as [ |b|n|s|xs|r|t] eqn:Hrec; cbn;
    try discriminate.
  intros [= <-]. exists d, c, r. auto.
Qed.

Lemma not_in_existsb s allow : ~ In s allow -> existsb (String.eqb s) allow = false.
Proof.
  intros Hn. induction allow as [|x allow IH]; [reflexivity|]. cbn.
  destruct (s =? x)%string eqn:E.
  - apply String.eqb_eq in E. subst. exfalso. apply Hn. now left.
  - apply IH. intros Hi. apply Hn. now right.
Qed.

Lemma disjoint_not_allowed xs allow :
  disjoint xs allow -> existsb (fun lang => py_in lang allow) xs = false.
Proof.
  unfold disjoint. induction xs as [|x xs IH]; intros Hd; [reflexivity|]. cbn.
  rewrite IH by (intros s Hs; apply Hd; now right).
  rewrite orb_false_r. destruct x; try reflexivity. cbn.
  apply not_in_existsb. apply Hd. now left.
Qed.

Lemma get_or_enriched d url ts k default :
  k <> "post_url" -> k <> "record_time" ->
  get_or (enriched d url ts) k default = get_or d k default.
Proof.
  intros H1 H2. unfold get_or.
  now rewrite (proj2 (proj2 (enriched_fields d url ts)) k H1 H2).
Qed.

Lemma document_id_enriched d c url ts :
  document_id (enriched d url ts) c = document_id d c.
Proof.
  unfold document_id, field_text.
  rewrite !(proj2 (proj2 (enriched_fields d url ts))) by discriminate.
  reflexivity.
Qed.

(** An event that gets past the filter with a [time_us] entry that
    [get_timestamp] handles reaches [es_client.index] once, as the enriched
    document under its document id. *)
Lemma process_message_indexes p a d c r did rkey ts w :
  MP.es_client p = true ->
  get_or d "commit" (PDict []) = PDict c ->
  get_or c "record" (PDict []) = PDict r ->
  MP.is_language_allowed p (get_or r "langs" (PList [])) = Ret true ->
  dict_get "did" d = Some (PStr did) ->
  dict_get "rkey" c = Some (PStr rkey) ->
  stamp a (dict_get "time_us" d) ts ->
  exists w0,
    maybe_warned w w0 /\
    MP.process_message p a (PDict d) w =
      index_outcome a (document_id d c)
        (PDict (enriched d (post_url did rkey) ts)) w0 /\
    calls (snd (MP.process_message p a (PDict d) w)) =
      calls w ++ [(document_id d c, PDict (enriched d (post_url did rkey) ts))].
Proof.
  intros Hes Hc Hr Hl Hdid Hrkey Hst.
  destruct (get_timestamp_stamp a _ ts w Hst) as (w0 & Hts & Hw).
  assert (Hmsg : MP.process_message p a (PDict d) w =
                 index_outcome a (document_id d c)
                   (PDict (enriched d (post_url did rkey) ts)) w0).
  { rewrite (process_message_dict p a d c r w Hc Hr), Hl.
    unfold get_or at 1. rewrite Hts.
    unfold get_or at 1 2. rewrite Hdid, Hrkey. cbn [py_format].
    rewrite (index_data_call p a _ (document_id d c) w0 Hes); [reflexivity|].
    rewrite (doc_id_dict _ c).
    - now rewrite document_id_enriched.
    - rewrite get_or_enriched by discriminate. exact Hc. }
  exists w0. split; [exact Hw|]. split; [exact Hmsg|].
  rewrite Hmsg. unfold index_outcome.
  assert (Hcalls : calls w0 = calls w) by (destruct Hw as [->| ->]; reflexivity).
  destruct (es_reply a _ _) as [e|]; [destruct (is_Exception e)|]; cbn;
    now rewrite Hcalls.
Qed.

Lemma well_formed_inv data :
  well_formed data = true ->
  exists d c r did rkey,
    data = PDict d /\
    dict_get "did" d = Some (PStr did) /\
    get_or d "commit" (PDict []) = PDict c /\
    dict_get "rkey" c = Some (PStr rkey) /\
    get_or c "record" (PDict []) = PDict r /\
    opt_ok is_int (dict_get "time_us" d) = true.
Proof.
  unfold well_formed, get_or.
  destruct data as [ |b|n|s|xs|d|t]; try discriminate.
  destruct (dict_get "did" d) as [[ |b|n|did|xs|kvs|t]|] eqn:Hdid;
    try discriminate.
  destruct (dict_get "commit" d) as [[ |b|n|s|xs|c|t]|] eqn:Hc;
    try discriminate.
  intros H. apply andb_prop in H as [Ht H].
  destruct (dict_get "rkey" c) as [[ |b|n|rkey|xs|kvs|t]|] eqn:Hrkey;
    try discriminate.
  destruct (dict_get "record" c) as [[ |b|n|s|xs|r|t]|] eqn:Hr;
    try discriminate.
  exists d, c, r, did, rkey. rewrite Hc, Hr. repeat split; auto.
Qed.

(** For an integer [time_us], or none: either [get_timestamp] returns,
    or the conversion raises what [get_timestamp] does not catch. *)
Lemma int_stamp_or_escape a o :
  opt_ok is_int o = true ->
  (exists ts, stamp a o ts) \/
  (exists n e,
     o = Some (PInt n) /\ n <> 0 /\ utc_fromtimestamp n = ConvError e /\
     MP.is_ValueError_or_TypeError e = false).
Proof.
  destruct o as [v|]; cbn.
  - destruct v as [ |b|n|s|xs|kvs|t]; cbn; try discriminate. intros _.
    destruct (Z.eq_dec n 0) as [->|Hn].
    + left. eexists. apply stamp_zero.
    + destruct (utc_fromtimestamp n) as [t|e] eqn:E.
      * left. exists t. now apply stamp_converted.
      * destruct (MP.is_ValueError_or_TypeError e) eqn:He.
        -- left. eexists. now apply (stamp_rejected a n e).
        -- right. exists n, e. auto.
  - intros _. left. eexists. apply stamp_absent.
Qed.

(** What the conversion raises and [get_timestamp] does not catch leaves
    [get_timestamp], with nothing logged. *)
Lemma get_timestamp_escapes a n e w :
  n <> 0 ->
  utc_fromtimestamp n = ConvError e ->
  MP.is_ValueError_or_TypeError e = false ->
  MP.get_timestamp a (PInt n) w = (Raise e, w).
Proof.
  intros Hn Hc He.
  unfold MP.get_timestamp, MP.fromtimestamp, try_except. cbn [truthy].
  destruct (n =? 0) eqn:E; [apply Z.eqb_eq in E; contradiction|].
  cbn [negb]. rewrite Hc. unfold raise. now rewrite He.
Qed.

Lemma index_data_twice p a1 a2 doc1 doc2 id w :
  MP.es_client p = true ->
  (forall w', MP.doc_id doc1 w' = (Ret id, w')) ->
  (forall w', MP.doc_id doc2 w' = (Ret id, w')) ->
  es_reply a1 id doc1 = None ->
  es_reply a2 id doc2 = None ->
  calls (indexed_twice p a1 a2 doc1 doc2 w) = calls w ++ [(id, doc1); (id, doc2)] /\
  store (indexed_twice p a1 a2 doc1 doc2 w) = upsert id doc2 (store w) /\
  stored_under id (store (indexed_twice p a1 a2 doc1 doc2 w)) = 1%nat.
Proof.
  intros Hes H1 H2 Hr1 Hr2. unfold indexed_twice.
  assert (E1 : MP.index_data p a1 doc1 w =
               (Ret tt, add_log (Log INFO "Indexed document ID")
                          (put_doc id doc1 (add_call id doc1 w)))).
  { rewrite (index_data_call p a1 doc1 id w Hes (H1 w)).
    unfold index_outcome. now rewrite Hr1. }
  rewrite E1. cbn [snd].
  set (w1 := add_log (Log INFO "Indexed document ID")
               (put_doc id doc1 (add_call id doc1 w))).
  assert (E2 : MP.index_data p a2 doc2 w1 =
               (Ret tt, add_log (Log INFO "Indexed document ID")
                          (put_doc id doc2 (add_call id doc2 w1)))).
  { rewrite (index_data_call p a2 doc2 id w1 Hes (H2 w1)).
    unfold index_outcome. now rewrite Hr2. }
  rewrite E2. cbn [snd add_log put_doc add_call calls store w1].
  destruct (upsert_twice id doc1 doc2 (store w)) as [Hn Hu].
  split; [now rewrite <- app_assoc|]. split; [exact Hu|exact Hn].
Qed.

(** The language filter at work, and what the empty allow-list lets
    through.  An event whose [langs] list shares no language with a
    non-empty allow-list is dropped by [process_message] without a call to
    the store and without a log line.  With an empty allow-list a
    well-formed event is passed to the store, once, as the enriched
    document, whenever [get_timestamp] returns for its [time_us]; when the
    conversion of [time_us] raises what [get_timestamp] does not catch,
    [process_message] raises it and the store is not called; and one of
    the two is the case. *)
Lemma language_filter_decides p a data w :
  (forall xs,
     MP.language_filter p <> [] ->
     langs_of data = Ret (PList xs) ->
     disjoint xs (MP.language_filter p) ->
     MP.process_message p a data w = (Ret tt, w)) /\
  (MP.language_filter p = [] ->
   MP.es_client p = true ->
   well_formed data = true ->
   (forall ts,
      stamp a (dict_get "time_us" (fields data)) ts ->
      exists id url,
        calls (snd (MP.process_message p a data w)) =
          calls w ++ [(id, PDict (enriched (fields data) url ts))] /\
        (es_reply a id (PDict (enriched (fields data) url ts)) = None ->
         fst (MP.process_message p a data w) = Ret tt /\
         store (snd (MP.process_message p a data w)) =
           upsert id (PDict (enriched (fields data) url ts)) (store w))) /\
   (forall n e,
      dict_get "time_us" (fields data) = Some (PInt n) ->
      n <> 0 ->
      utc_fromtimestamp n = ConvError e ->
      MP.is_ValueError_or_TypeError e = false ->
      MP.process_message p a data w = (Raise e, w)) /\
   ((exists ts, stamp a (dict_get "time_us" (fields data)) ts) \/
    (exists n e,
       dict_get "time_us" (fields data) = Some (PInt n) /\ n <> 0 /\
       utc_fromtimestamp n = ConvError e /\
       MP.is_ValueError_or_TypeError e = false))).
Proof.
  split.
  - intros xs Hne Hl Hd.
    destruct (langs_of_inv _ _ Hl) as (d & c & r & -> & Hc & Hr & Hx).
    rewrite (process_message_dict p a d c r w Hc Hr), <- Hx.
    unfold MP.is_language_allowed.
    destruct (MP.language_filter p) as [|l ls] eqn:Hf; [contradiction|].
    cbn [py_iter]. now rewrite (disjoint_not_allowed xs (l :: ls) Hd).
  - intros Hf Hes Hwf.
    destruct (well_formed_inv _ Hwf)
      as (d & c & r & did & rkey & -> & Hdid & Hc & Hrkey & Hr & Ht).
    assert (Hl : MP.is_language_allowed p (get_or r "langs" (PList [])) = Ret true)
      by (unfold MP.is_language_allowed; now rewrite Hf).
    cbn [fields]. split; [|split].
    + intros ts Hst.
      destruct (process_message_indexes p a d c r did rkey ts w
                  Hes Hc Hr Hl Hdid Hrkey Hst) as (w0 & Hw & Hmsg & Hcalls).
      exists (document_id d c), (post_url did rkey).
      split; [exact Hcalls|].
      intros Hrep. rewrite Hmsg. unfold index_outcome. rewrite Hrep. cbn.
      split; [reflexivity|]. destruct Hw as [->| ->]; reflexivity.
    + intros n e Hn Hn0 Hconv He.
      rewrite (process_message_dict p a d c r w Hc Hr), Hl.
      unfold get_or at 1. rewrite Hn.
      now rewrite (get_timestamp_escapes a n e w Hn0 Hconv He).
    + exact (int_stamp_or_escape a _ Ht).
Qed.

(** C10. An event whose record has no [langs] field counts as having the
    empty list of languages: under a non-empty allow-list it is dropped
    without a call to the store and without a log line, so such an event
    reaches the store only when the allow-list is empty. *)
Theorem untagged_event_needs_open_filter p a data r w :
  record_of data = Ret (PDict r) ->
  dict_get "langs" r = None ->
  langs_of data = Ret (PList []) /\
  (MP.language_filter p <> [] ->
   MP.process_message p a data w = (Ret tt, w)) /\
  (calls (snd (MP.process_message p a data w)) <> calls w ->
   MP.language_filter p = []).
Proof.
  intros Hrec Hno.
  assert (Hl : langs_of data = Ret (PList [])).
  { unfold langs_of. rewrite Hrec. cbn. unfold get_or. now rewrite Hno. }
  assert (Hdrop : MP.language_filter p <> [] ->
                  MP.process_message p a data w = (Ret tt, w)).
  { intros Hne.
    destruct (langs_of_inv _ _ Hl) as (d & c & r' & -> & Hc & Hr & Hx).
    rewrite (process_message_dict p a d c r' w Hc Hr), <- Hx.
    unfold MP.is_language_allowed.
    destruct (MP.language_filter p) as [|l ls]; [contradiction|]. reflexivity. }
  split; [exact Hl|]. split; [exact Hdrop|].
  intros Hcalls. destruct (MP.language_filter p) as [|l ls] eqn:Hf; [reflexivity|].
  exfalso. apply Hcalls. rewrite Hdrop by discriminate. reflexivity.
Qed.

(** C7 (amended). An event that gets past the filter reaches the store as
    the parsed event with two fields set and every other field untouched:
    [post_url], the profile URL built from [did] and [rkey], and
    [record_time], which is the conversion of [time_us] when that is a
    non-zero integer the conversion accepts, and the current time when
    [time_us] is absent, null, zero, not a number or rejected with
    [ValueError]. *)
Theorem enriched_document_sent p a d c r did rkey ts w :
  MP.es_client p = true ->
  get_or d "commit" (PDict []) = PDict c ->
  get_or c "record" (PDict []) = PDict r ->
  MP.is_language_allowed p (get_or r "langs" (PList [])) = Ret true ->
  dict_get "did" d = Some (PStr did) ->
  dict_get "rkey" c = Some (PStr rkey) ->
  stamp a (dict_get "time_us" d) ts ->
  calls (snd (MP.process_message p a (PDict d) w)) =
    calls w ++ [(document_id d c, PDict (enriched d (post_url did rkey) ts))] /\
  dict_get "post_url" (enriched d (post_url did rkey) ts) =
    Some (PStr ("https://bsky.app/profile/" ++ did ++ "/post/" ++ rkey)%string) /\
  dict_get "record_time" (enriched d (post_url did rkey) ts) =
    Some (PDatetime ts) /\
  (forall k, k <> "post_url" -> k <> "record_time" ->
     dict_get k (enriched d (post_url did rkey) ts) = dict_get k d).
Proof.
  intros Hes Hc Hr Hl Hdid Hrkey Hst.
  destruct (process_message_indexes p a d c r did rkey ts w
              Hes Hc Hr Hl Hdid Hrkey Hst) as (w0 & _ & _ & Hcalls).
  split; [exact Hcalls|]. apply enriched_fields.
Qed.

(** C2 (amended). Two events with the same truthy [commit.cid], or with no
    truthy [cid] and the same [did] and [time_us], get the same document
    id from [index_data], so indexing the second overwrites the record of
    the first: the index holds one document under that id. *)
Theorem same_key_same_document_id p a1 a2 d1 c1 d2 c2 w :
  get_or d1 "commit" (PDict []) = PDict c1 ->
  get_or d2 "commit" (PDict []) = PDict c2 ->
  same_key d1 c1 d2 c2 ->
  document_id d1 c1 = document_id d2 c2 /\
  MP.doc_id (PDict d1) w = (Ret (document_id d1 c1), w) /\
  MP.doc_id (PDict d2) w = (Ret (document_id d1 c1), w) /\
  (MP.es_client p = true ->
   es_reply a1 (document_id d1 c1) (PDict d1) = None ->
   es_reply a2 (document_id d1 c1) (PDict d2) = None ->
   calls (indexed_twice p a1 a2 (PDict d1) (PDict d2) w) =
     calls w ++ [(document_id d1 c1, PDict d1); (document_id d1 c1, PDict d2)] /\
   store (indexed_twice p a1 a2 (PDict d1) (PDict d2) w) =
     upsert (document_id d1 c1) (PDict d2) (store w) /\
   stored_under (document_id d1 c1)
     (store (indexed_twice p a1 a2 (PDict d1) (PDict d2) w)) = 1%nat).
Proof.
  intros Hc1 Hc2 Hk.
  assert (Hid : document_id d1 c1 = document_id d2 c2).
  { unfold document_id, field_text.
    destruct Hk as [[Ht He]|(Ht1 & Ht2 & Hd & Hu)].
    - rewrite <- He, Ht. reflexivity.
    - rewrite Ht1, Ht2, Hd, Hu. reflexivity. }
  split; [exact Hid|].
  split; [apply doc_id_dict; exact Hc1|].
  split; [rewrite Hid; apply doc_id_dict; exact Hc2|].
  intros Hes Hr1 Hr2.
  apply index_data_twice; auto.
  - intros w'. apply doc_id_dict; exact Hc1.
  - intros w'. rewrite Hid. apply doc_id_dict; exact Hc2.
Qed.

(** C9. Without a truthy [commit.cid] the document id is the string
    [<did>_<time_us>], a missing field contributing the empty string; so
    two different events of one author that have neither [cid] nor
    [time_us] get the same id, and the later write replaces the earlier
    event in the index. *)
Theorem composite_id_collides p a1 a2 d c w :
  get_or d "commit" (PDict []) = PDict c ->
  truthy (get_or c "cid" PNone) = false ->
  MP.doc_id (PDict d) w =
    (Ret (PStr (field_text d "did" ++ "_" ++ field_text d "time_us")%string), w) /\
  (dict_get "did" d = None -> field_text d "did" = "") /\
  (dict_get "time_us" d = None -> field_text d "time_us" = "") /\
  (MP.es_client p = true ->
   calls (snd (MP.index_data p a1 (PDict d) w)) =
     calls w ++
     [(PStr (field_text d "did" ++ "_" ++ field_text d "time_us")%string, PDict d)]) /\
  (forall d2 c2 s,
     d <> d2 ->
     get_or d2 "commit" (PDict []) = PDict c2 ->
     dict_get "cid" c = None -> dict_get "cid" c2 = None ->
     dict_get "time_us" d = None -> dict_get "time_us" d2 = None ->
     dict_get "did" d = Some (PStr s) -> dict_get "did" d2 = Some (PStr s) ->
     MP.es_client p = true ->
     es_reply a1 (PStr (s ++ "_")%string) (PDict d) = None ->
     es_reply a2 (PStr (s ++ "_")%string) (PDict d2) = None ->
     MP.doc_id (PDict d) w = (Ret (PStr (s ++ "_")%string), w) /\
     MP.doc_id (PDict d2) w = (Ret (PStr (s ++ "_")%string), w) /\
     store (indexed_twice p a1 a2 (PDict d) (PDict d2) w) =
       upsert (PStr (s ++ "_")%string) (PDict d2) (store w) /\
     stored_under (PStr (s ++ "_")%string)
       (store (indexed_twice p a1 a2 (PDict d) (PDict d2) w)) = 1%nat /\
     ~ In (PStr (s ++ "_")%string, PDict d)
         (store (indexed_twice p a1 a2 (PDict d) (PDict d2) w))).
Proof.
  intros Hc Hcid.
  assert (Hdoc : forall w', MP.doc_id (PDict d) w' =
            (Ret (PStr (field_text d "did" ++ "_" ++ field_text d "time_us")%string), w')).
  { intros w'. rewrite (doc_id_dict d c w' Hc). unfold document_id.
    now rewrite Hcid. }
  split; [apply Hdoc|].
  split; [intros H; unfold field_text; now rewrite H|].
  split; [intros H; unfold field_text; now rewrite H|].
  split.
  { intros Hes. rewrite (index_data_call p a1 _ _ w Hes (Hdoc w)).
    unfold index_outcome.
    destruct (es_reply a1 _ _) as [e|]; [destruct (is_Exception e)|]; reflexivity. }
  intros d2 c2 s Hne Hc2 Hn1 Hn2 Ht1 Ht2 Hd1 Hd2 Hes Hr1 Hr2.
  assert (Hid1 : forall w', MP.doc_id (PDict d) w' = (Ret (PStr (s ++ "_")%string), w')).
  { intros w'. rewrite Hdoc. unfold field_text. rewrite Hd1, Ht1. cbn [py_format].
    reflexivity. }
  assert (Hid2 : forall w', MP.doc_id (PDict d2) w' = (Ret (PStr (s ++ "_")%string), w')).
  { intros w'. rewrite (doc_id_dict d2 c2 w' Hc2). unfold document_id, get_or, field_text.
    rewrite Hn2, Hd2, Ht2. cbn [truthy py_format]. reflexivity. }
  destruct (index_data_twice p a1 a2 _ _ _ w Hes Hid1 Hid2 Hr1 Hr2) as (_ & Hst & Hn).
  split; [apply Hid1|]. split; [apply Hid2|]. split; [exact Hst|]. split; [exact Hn|].
  rewrite Hst. unfold upsert. intros Hin. apply in_app_or in Hin as [Hin|Hin].
  - apply filter_In in Hin as [_ Hf]. cbn [fst] in Hf.
    rewrite pyval_eqb_refl in Hf. discriminate.
  - destruct Hin as [Heq|[]]. apply Hne. congruence.
Qed.

End Pipeline.

(* ================================================================== *)
(** * The theorems at sample data *)

Lemma message_errors_contained_witness :
  MP.running english_only = true /\
  MP.worker english_only [MP.Got "[]" (calm reading)] empty_world =
    MP.worker english_only [] (ack (add_log handling_failure empty_world)) /\
  MP.index_data english_only (outage reading) post_en_fr empty_world =
    (Ret tt, add_log index_failure (add_call (PStr "c1") post_en_fr empty_world)).
Proof.
  split; [reflexivity|]. split.
  - apply (proj1 (message_errors_contained english_only (calm reading) "[]" []
                    empty_world eq_refl) AttributeError empty_world);
      reflexivity.
  - apply (proj2 (proj2 (proj2
             (message_errors_contained english_only (outage reading) "[]" []
                empty_world eq_refl)))
             post_en_fr (PStr "c1") ApiError empty_world); reflexivity.
Defined.

(** The filter at sample events: a Dutch post under the allow-list
    ["en"], and the same post under the empty allow-list of the module. *)
Example language_filter_decides_sample :
  (MP.language_filter english_only <> [] /\
   langs_of post_nl = Ret (PList [PStr "nl"]) /\
   disjoint [PStr "nl"] (MP.language_filter english_only) /\
   MP.process_message english_only (calm reading) post_nl empty_world
     = (Ret tt, empty_world)) /\
  (MP.language_filter main_processor = [] /\
   MP.es_client main_processor = true /\
   well_formed post_nl = true /\
   exists ts id url,
     stamp (calm reading) (dict_get "time_us" (fields post_nl)) ts /\
     calls (snd (MP.process_message main_processor (calm reading) post_nl empty_world)) =
       calls empty_world ++ [(id, PDict (enriched (fields post_nl) url ts))]).
Proof.
  assert (Hd : disjoint [PStr "nl"] (MP.language_filter english_only)).
  { intros s [H|[]] [H'|[]]. injection H as <-. discriminate. }
  split.
  - split; [discriminate|]. split; [reflexivity|]. split; [exact Hd|].
    apply (proj1 (language_filter_decides english_only (calm reading) post_nl
                    empty_world) [PStr "nl"]); [discriminate|reflexivity|exact Hd].
  - split; [reflexivity|]. split; [reflexivity|]. split; [reflexivity|].
    destruct (proj2 (language_filter_decides main_processor (calm reading) post_nl
                       empty_world) eq_refl eq_refl eq_refl) as (Hw & _ & [[ts Hst]|H]).
    + destruct (Hw ts Hst) as (id & url & Hcalls & _).
      exists ts, id, url. split; [exact Hst|exact Hcalls].
    + exfalso. destruct H as (n & e & Hn & _ & Hc & _).
      injection Hn as <-. discriminate Hc.
Qed.

(** C3. The second half of the claim fails on the code at a well-formed
    event.  Under the empty allow-list of the module, the event whose
    [time_us] is the integer 10^25 is not written: the conversion raises
    [OverflowError], which [get_timestamp] does not catch, though it falls
    back to the clock for [ValueError] and [TypeError]; so
    [process_message] raises before [index_data], the store is not called
    and nothing is logged there, and the worker logs the failure,
    acknowledges the item and goes on.  The event that differs by a
    [time_us] the conversion rejects with [ValueError] is written, stamped
    with the clock. *)
Theorem far_time_us_event_not_written :
  well_formed post_far = true /\
  MP.language_filter main_processor = [] /\
  MP.es_client main_processor = true /\
  @utc_fromtimestamp firehose_runtime (10 ^ 25) = ConvError OverflowError /\
  (forall a w,
     @MP.get_timestamp firehose_runtime a (PInt (10 ^ 25)) w
       = (Raise OverflowError, w) /\
     @MP.process_message firehose_runtime main_processor a post_far w
       = (Raise OverflowError, w)) /\
  (forall a evs w,
     @MP.worker firehose_runtime main_processor (MP.Got payload_far a :: evs) w
     = @MP.worker firehose_runtime main_processor evs
         (ack (add_log handling_failure w))) /\
  well_formed post_late = true /\
  @utc_fromtimestamp firehose_runtime (10 ^ 18) = ConvError ValueError /\
  (forall a w,
     calls (snd (@MP.process_message firehose_runtime main_processor a
                   post_late w))
     = calls w ++
       [(PStr "c6",
         PDict (enriched (fields post_late)
                  "https://bsky.app/profile/did:abc/post/xyz" (now a)))]).
Proof.
  split; [reflexivity|]. split; [reflexivity|]. split; [reflexivity|].
  split; [reflexivity|].
  assert (Hmsg : forall a w,
            @MP.process_message firehose_runtime main_processor a post_far w
            = (Raise OverflowError, w)) by reflexivity.
  split; [intros a w; split; [reflexivity|apply Hmsg]|].
  split.
  { intros a evs w.
    rewrite (@worker_item firehose_runtime main_processor a payload_far evs w
               eq_refl).
    assert (Hh : @MP.handle_message firehose_runtime main_processor a
                   payload_far w = (Raise OverflowError, w)).
    { unfold MP.handle_message, try_except, bind at 1.
      change (@json_loads firehose_runtime payload_far) with (Loaded post_far).
      unfold ret. now rewrite Hmsg. }
    now rewrite Hh. }
  split; [reflexivity|]. split; [reflexivity|].
  intros a w.
  destruct (@process_message_indexes firehose_runtime main_processor a
              (fields post_late) (commit_fields post_late)
              (record_fields post_late) "did:abc" "xyz" (now a) w
              eq_refl eq_refl eq_refl eq_refl eq_refl eq_refl
              (@stamp_rejected firehose_runtime a (10 ^ 18) ValueError
                 ltac:(discriminate) eq_refl eq_refl))
    as (w0 & _ & _ & Hcalls).
  exact Hcalls.
Qed.

(** The scenario of the specification: with the allow-list ["en"], the
    event tagged ["en", "fr"] is written with its profile URL and the time
    of [time_us]. *)
Example en_fr_written :
  MP.process_message english_only (calm reading) post_en_fr empty_world =
  (Ret tt,
   {| log := [Log INFO "Indexed document ID"];
      calls := [(PStr "c1",
                 PDict (enriched (fields post_en_fr)
                          "https://bsky.app/profile/did:abc/post/xyz"
                          1700000000000000))];
      store := [(PStr "c1",
                 PDict (enriched (fields post_en_fr)
                          "https://bsky.app/profile/did:abc/post/xyz"
                          1700000000000000))];
      acked := 0 |}).
Proof. reflexivity. Qed.

Lemma untagged_event_needs_open_filter_witness :
  record_of post_untagged = Ret (PDict (record_fields post_untagged)) /\
  dict_get "langs" (record_fields post_untagged) = None /\
  (langs_of post_untagged = Ret (PList []) /\
   (MP.language_filter english_only <> [] ->
    MP.process_message english_only (calm reading) post_untagged empty_world
      = (Ret tt, empty_world)) /\
   (calls (snd (MP.process_message english_only (calm reading) post_untagged
                  empty_world)) <> calls empty_world ->
    MP.language_filter english_only = [])).
Proof.
  split; [reflexivity|]. split; [reflexivity|].
  apply (untagged_event_needs_open_filter english_only (calm reading) post_untagged
           (record_fields post_untagged) empty_world); reflexivity.
Defined.

(** With the empty allow-list the untagged event is written. *)
Example untagged_written_when_open :
  calls (snd (MP.process_message main_processor (calm reading) post_untagged empty_world))
  = [(PStr "c3",
      PDict (enriched (fields post_untagged)
               "https://bsky.app/profile/did:abc/post/xyv" 1700000000000002))].
Proof. reflexivity. Qed.

Lemma enriched_document_sent_witness :
  MP.es_client english_only = true /\
  get_or (fields post_en_fr) "commit" (PDict []) = PDict (commit_fields post_en_fr) /\
  get_or (commit_fields post_en_fr) "record" (PDict [])
    = PDict (record_fields post_en_fr) /\
  MP.is_language_allowed english_only
    (get_or (record_fields post_en_fr) "langs" (PList [])) = Ret true /\
  dict_get "did" (fields post_en_fr) = Some (PStr "did:abc") /\
  dict_get "rkey" (commit_fields post_en_fr) = Some (PStr "xyz") /\
  stamp (calm reading) (dict_get "time_us" (fields post_en_fr)) 1700000000000000 /\
  calls (snd (MP.process_message english_only (calm reading) post_en_fr empty_world)) =
    [(PStr "c1",
      PDict (enriched (fields post_en_fr)
               "https://bsky.app/profile/did:abc/post/xyz" 1700000000000000))] /\
  dict_get "post_url"
    (enriched (fields post_en_fr) (post_url "did:abc" "xyz") 1700000000000000)
    = Some (PStr "https://bsky.app/profile/did:abc/post/xyz") /\
  dict_get "time_us" (fields post_blank_time) = Some (PStr "") /\
  stamp (calm reading) (dict_get "time_us" (fields post_blank_time)) reading /\
  calls (snd (MP.process_message english_only (calm reading) post_blank_time
                empty_world)) =
    [(PStr "c7",
      PDict (enriched (fields post_blank_time)
               "https://bsky.app/profile/did:abc/post/xyz" reading))].
Proof.
  assert (Hst : stamp (calm reading) (dict_get "time_us" (fields post_en_fr))
                  1700000000000000).
  { apply (stamp_converted (calm reading) 1700000000000000 1700000000000000);
      [discriminate|reflexivity]. }
  assert (Hblank : stamp (calm reading)
                     (dict_get "time_us" (fields post_blank_time)) reading)
    by (apply (stamp_not_a_number (calm reading) (PStr "")); reflexivity).
  repeat (split; [reflexivity|]). split; [exact Hst|].
  pose proof (enriched_document_sent english_only (calm reading)
                (fields post_en_fr) (commit_fields post_en_fr)
                (record_fields post_en_fr) "did:abc" "xyz" 1700000000000000
                empty_world eq_refl eq_refl eq_refl eq_refl eq_refl eq_refl Hst)
    as (Hcalls & Hurl & _).
  pose proof (enriched_document_sent english_only (calm reading)
                (fields post_blank_time) (commit_fields post_blank_time)
                (record_fields post_blank_time) "did:abc" "xyz" reading
                empty_world eq_refl eq_refl eq_refl eq_refl eq_refl eq_refl
                Hblank)
    as (Hcalls' & _).
  split; [exact Hcalls|]. split; [exact Hurl|]. split; [reflexivity|].
  split; [exact Hblank|exact Hcalls'].
Defined.

(** C7, as stated, fails for [time_us = 0]: the entry is present and the
    conversion accepts it (the epoch), yet the document is stamped with the
    clock, because [get_timestamp] tests [time_us] for truth. *)
Lemma epoch_time_us_stamped_with_clock :
  dict_get "time_us" (fields post_epoch) = Some (PInt 0) /\
  is_instant (PInt 0) = true /\
  utc_fromtimestamp 0 = Converted 0 /\
  calls (snd (MP.process_message english_only (calm reading) post_epoch empty_world)) =
    [(PStr "c4",
      PDict (enriched (fields post_epoch)
               "https://bsky.app/profile/did:abc/post/xyz" reading))] /\
  dict_get "record_time"
    (enriched (fields post_epoch) "https://bsky.app/profile/did:abc/post/xyz" reading)
    = Some (PDatetime reading) /\
  PDatetime reading <> PDatetime 0.
Proof. repeat (split; [reflexivity|]). discriminate. Qed.

Lemma same_key_same_document_id_witness :
  get_or (fields post_en_fr) "commit" (PDict []) = PDict (commit_fields post_en_fr) /\
  get_or (fields post_en_fr_again) "commit" (PDict [])
    = PDict (commit_fields post_en_fr_again) /\
  same_key (fields post_en_fr) (commit_fields post_en_fr)
    (fields post_en_fr_again) (commit_fields post_en_fr_again) /\
  MP.doc_id post_en_fr empty_world = (Ret (PStr "c1"), empty_world) /\
  MP.doc_id post_en_fr_again empty_world = (Ret (PStr "c1"), empty_world) /\
  store (indexed_twice main_processor (calm reading) (calm reading) post_en_fr
           post_en_fr_again empty_world) = [(PStr "c1", post_en_fr_again)].
Proof.
  assert (Hk : same_key (fields post_en_fr) (commit_fields post_en_fr)
                 (fields post_en_fr_again) (commit_fields post_en_fr_again))
    by (left; split; reflexivity).
  split; [reflexivity|]. split; [reflexivity|]. split; [exact Hk|].
  pose proof (same_key_same_document_id main_processor (calm reading) (calm reading)
                (fields post_en_fr) (commit_fields post_en_fr)
                (fields post_en_fr_again) (commit_fields post_en_fr_again)
                empty_world eq_refl eq_refl Hk)
    as (_ & H1 & H2 & H).
  split; [exact H1|]. split; [exact H2|].
  exact (proj1 (proj2 (H eq_refl eq_refl eq_refl))).
Defined.

(** C2, as stated, fails for a falsy [cid]: the two events carry the
    identical [commit.cid], the empty string, yet get different document
    ids and are stored as two records. *)
Lemma blank_cid_distinct_ids :
  cid_of blank_cid_a = Ret (PStr "") /\
  cid_of blank_cid_b = Ret (PStr "") /\
  fst (MP.doc_id blank_cid_a empty_world) = Ret (PStr "did:a_1700000000000000") /\
  fst (MP.doc_id blank_cid_b empty_world) = Ret (PStr "did:b_1700000000000000") /\
  PStr "did:a_1700000000000000" <> PStr "did:b_1700000000000000" /\
  store (indexed_twice main_processor (calm reading) (calm reading) blank_cid_a blank_cid_b
           empty_world)
    = [(PStr "did:a_1700000000000000", blank_cid_a);
       (PStr "did:b_1700000000000000", blank_cid_b)].
Proof.
  repeat (split; [reflexivity|]). split; [discriminate|reflexivity].
Qed.

Lemma composite_id_collides_witness :
  get_or (fields bare_one) "commit" (PDict []) = PDict (commit_fields bare_one) /\
  truthy (get_or (commit_fields bare_one) "cid" PNone) = false /\
  MP.doc_id bare_one empty_world = (Ret (PStr "did:abc_"), empty_world) /\
  MP.doc_id bare_two empty_world = (Ret (PStr "did:abc_"), empty_world) /\
  bare_one <> bare_two /\
  store (indexed_twice main_processor (calm reading) (calm reading) bare_one bare_two
           empty_world) = [(PStr "did:abc_", bare_two)].
Proof.
  split; [reflexivity|]. split; [reflexivity|].
  pose proof (composite_id_collides main_processor (calm reading) (calm reading)
                (fields bare_one) (commit_fields bare_one) empty_world
                eq_refl eq_refl) as (H1 & _ & _ & _ & H).
  assert (Hne : fields bare_one <> fields bare_two) by discriminate.
  destruct (H (fields bare_two) (commit_fields bare_two) "did:abc" Hne
              eq_refl eq_refl eq_refl eq_refl eq_refl eq_refl eq_refl eq_refl
              eq_refl eq_refl) as (_ & H2 & Hst & _).
  split; [exact H1|]. split; [exact H2|]. split; [discriminate|exact Hst].
Defined.

(* ================================================================== *)
(** * More on WebSocketClient: stopping, cancellation, the empty pool *)

Lemma run_loop_stopped c rd env :
  WS.running c = false -> WS.run_loop c rd env = ([], WS.Stopped, c, rd).
Proof. intros H. destruct env; cbn; rewrite H; reflexivity. Qed.

(** The passes over a prefix of attempts that neither stop nor cancel the
    client, followed by the loop over the rest. *)
Lemma run_loop_prefix env1 :
  forall c rd env2,
    WS.running c = true ->
    (WS.current_url_index c < List.length (WS.urls c))%nat ->
    forallb survives env1 = true ->
    exists ps1 c1 rd1,
      List.length ps1 = List.length env1 /\
      WS.running c1 = true /\
      WS.urls c1 = WS.urls c /\
      WS.current_url_index c1 =
        ((WS.current_url_index c + List.length env1) mod List.length (WS.urls c))%nat /\
      rd1 = match env1 with [] => rd | _ :: _ => 2 end /\
      WS.run_loop c rd (env1 ++ env2) =
        (let '(ps2, x, cf, rf) := WS.run_loop c1 rd1 env2 in (ps1 ++ ps2, x, cf, rf)).
Proof.
  induction env1 as [|a env1 IH]; intros c rd env2 Hr Hlt Hs.
  - exists [], c, rd. cbn [List.length app].
    rewrite Nat.add_0_r, Nat.mod_small by exact Hlt.
    repeat split; auto.
    destruct (WS.run_loop c rd env2) as [[[ps x] cf] rf]. reflexivity.
  - cbn in Hs. apply andb_prop in Hs as [Ha Hs].
    unfold survives in Ha. apply andb_prop in Ha as [Hstop Hend].
    destruct (nth_error (WS.urls c) (WS.current_url_index c)) as [url|] eqn:Hu.
    2:{ apply nth_error_None in Hu. lia. }
    cbn [app].
    destruct (run_loop_pass c rd a (env1 ++ env2) url Hr Hu) as (p & _ & _ & _ & Heq).
    rewrite Heq. clear Heq. rewrite connect_and_listen_result.
    set (c' := {| WS.urls := WS.urls c;
                  WS.current_url_index :=
                    ((WS.current_url_index c + 1) mod List.length (WS.urls c))%nat;
                  WS.running := negb (WS.stop_called a) |}).
    assert (Hr' : WS.running c' = true) by exact Hstop.
    assert (Hlt' : (WS.current_url_index c' < List.length (WS.urls c'))%nat)
      by (apply next_index_lt; exact Hlt).
    assert (Hret : match WS.ending (WS.conn a) with
                   | Some e => if is_Exception e then Ret tt else Raise e
                   | None => Ret tt
                   end = Ret tt).
    { destruct (WS.ending (WS.conn a)) as [e|]; [now rewrite Hend|reflexivity]. }
    rewrite Hret. cbv beta iota.
    destruct (IH c' (WS.next_delay (WS.after_try rd (Ret tt))) env2 Hr' Hlt' Hs)
      as (ps1 & c1 & rd1 & Hl & Hr1 & Hu1 & Hi1 & Hrd & Heq).
    exists (p :: ps1), c1, rd1. cbn [List.length].
    split; [now rewrite Hl|]. split; [exact Hr1|]. split; [exact Hu1|].
    split; [rewrite Hi1; apply shift_index|].
    split; [rewrite Hrd; destruct env1; reflexivity|].
    rewrite Heq.
    destruct (WS.run_loop c1 rd1 env2) as [[[ps2 x] cf] rf]. reflexivity.
Qed.

(** X1. [stop()] is honoured at the loop test: the pass during which it was
    called runs to its end (rotation and sleep included), then [run]
    returns; no later connection is attempted.  A client stopped before
    [run] starts attempts nothing. *)
Theorem run_returns_after_stop urls env1 a env2 :
  urls <> [] ->
  forallb survives env1 = true ->
  WS.stop_called a = true ->
  ends_quietly a = true ->
  List.length (passes_of (WS.run (WS.init urls) (env1 ++ a :: env2)))
    = S (List.length env1) /\
  exit_of (WS.run (WS.init urls) (env1 ++ a :: env2)) = WS.Stopped /\
  WS.running (client_of (WS.run (WS.init urls) (env1 ++ a :: env2))) = false /\
  WS.run (WS.stop (WS.init urls)) (env1 ++ a :: env2)
    = ([], WS.Stopped, WS.stop (WS.init urls), 1).
Proof.
  intros Hne Hs Hstop Hend.
  assert (Hlt : (WS.current_url_index (WS.init urls)
                 < List.length (WS.urls (WS.init urls)))%nat).
  { cbn. destruct urls; [contradiction|cbn; lia]. }
  destruct (run_loop_prefix env1 (WS.init urls) 1 (a :: env2) eq_refl Hlt Hs)
    as (ps1 & c1 & rd1 & Hl & Hr1 & Hu1 & Hi1 & _ & Heq).
  unfold WS.run. rewrite Heq. clear Heq.
  assert (Hlt1 : (WS.current_url_index c1 < List.length (WS.urls c1))%nat).
  { rewrite Hi1, Hu1. apply Nat.mod_upper_bound. cbn. destruct urls; [contradiction|cbn; lia]. }
  destruct (nth_error (WS.urls c1) (WS.current_url_index c1)) as [url|] eqn:Hu.
  2:{ apply nth_error_None in Hu. lia. }
  destruct (run_loop_pass c1 rd1 a env2 url Hr1 Hu) as (p & _ & _ & _ & Heq).
  rewrite Heq. clear Heq. rewrite connect_and_listen_result.
  unfold ends_quietly in Hend.
  assert (Hret : match WS.ending (WS.conn a) with
                 | Some e => if is_Exception e then Ret tt else Raise e
                 | None => Ret tt
                 end = Ret tt).
  { destruct (WS.ending (WS.conn a)) as [e|]; [now rewrite Hend|reflexivity]. }
  rewrite Hret, Hstop. cbv beta iota. cbn [negb].
  rewrite run_loop_stopped by reflexivity.
  unfold passes_of, exit_of, client_of. cbn [fst snd WS.running].
  rewrite length_app. cbn [List.length].
  split; [lia|]. split; [reflexivity|]. split; [reflexivity|].
  apply run_loop_stopped. reflexivity.
Qed.

Lemma run_returns_after_stop_witness :
  EXTERNAL_WS_URLS <> [] /\
  forallb survives three_refusals = true /\
  WS.stop_called last_session = true /\
  ends_quietly last_session = true /\
  List.length (passes_of (WS.run (WS.init EXTERNAL_WS_URLS)
                            (three_refusals ++ last_session :: three_refusals)))
    = 4%nat /\
  exit_of (WS.run (WS.init EXTERNAL_WS_URLS)
             (three_refusals ++ last_session :: three_refusals)) = WS.Stopped.
Proof.
  split; [discriminate|]. split; [reflexivity|]. split; [reflexivity|].
  split; [reflexivity|].
  pose proof (run_returns_after_stop EXTERNAL_WS_URLS three_refusals last_session
                three_refusals) as H.
  destruct H as (H1 & H2 & _); try reflexivity; [discriminate|].
  split; [exact H1|exact H2].
Defined.

(** X2. When the task is cancelled inside [connect_and_listen], the
    [finally] block of [run] still runs: the endpoint index moves on and
    the delay is slept (the [retry_delay] left by the pass before, since
    the reset was skipped); then the cancellation leaves [run], and no
    later connection is attempted. *)
Theorem run_cancelled_after_finally urls env1 a env2 e :
  urls <> [] ->
  forallb survives env1 = true ->
  WS.ending (WS.conn a) = Some e ->
  is_Exception e = false ->
  exit_of (WS.run (WS.init urls) (env1 ++ a :: env2)) = WS.Propagated e /\
  List.length (passes_of (WS.run (WS.init urls) (env1 ++ a :: env2)))
    = S (List.length env1) /\
  WS.current_url_index (client_of (WS.run (WS.init urls) (env1 ++ a :: env2)))
    = (S (List.length env1) mod List.length urls)%nat /\
  exists p,
    nth_error (passes_of (WS.run (WS.init urls) (env1 ++ a :: env2)))
      (List.length env1) = Some p /\
    WS.outcome p = Raise e /\
    WS.delay p =
      (inject_Z (match env1 with [] => 1 | _ :: _ => 2 end) + WS.jitter a)%Q.
Proof.
  intros Hne Hs Hend Hex.
  assert (Hpos : (0 < List.length urls)%nat)
    by (destruct urls; [contradiction|cbn; lia]).
  assert (Hlt : (WS.current_url_index (WS.init urls)
                 < List.length (WS.urls (WS.init urls)))%nat) by exact Hpos.
  destruct (run_loop_prefix env1 (WS.init urls) 1 (a :: env2) eq_refl Hlt Hs)
    as (ps1 & c1 & rd1 & Hl & Hr1 & Hu1 & Hi1 & Hrd & Heq).
  unfold WS.run. rewrite Heq. clear Heq.
  cbn [WS.init WS.urls WS.current_url_index] in Hu1, Hi1. cbn [Nat.add] in Hi1.
  assert (Hlt1 : (WS.current_url_index c1 < List.length (WS.urls c1))%nat).
  { rewrite Hi1, Hu1. apply Nat.mod_upper_bound. lia. }
  destruct (nth_error (WS.urls c1) (WS.current_url_index c1)) as [url|] eqn:Hu.
  2:{ apply nth_error_None in Hu. lia. }
  destruct (run_loop_pass c1 rd1 a env2 url Hr1 Hu) as (p & _ & Ho & Hd & Heq).
  rewrite Heq. clear Heq.
  rewrite connect_and_listen_result in Ho, Hd |- *.
  rewrite Hend, Hex in Ho, Hd |- *. cbv beta iota. rewrite Hex.
  unfold passes_of, exit_of, client_of. cbn [fst snd WS.current_url_index].
  rewrite length_app. cbn [List.length].
  split; [reflexivity|]. split; [lia|].
  split; [rewrite Hi1, Hu1, Nat.Div0.add_mod_idemp_l; f_equal; lia|].
  exists p. rewrite nth_error_app2 by lia.
  replace (List.length env1 - List.length ps1)%nat with 0%nat by lia.
  split; [reflexivity|]. split; [exact Ho|].
  rewrite Hd. cbn [WS.after_try]. now rewrite Hrd.
Qed.

Lemma run_cancelled_after_finally_witness :
  EXTERNAL_WS_URLS <> [] /\
  forallb survives three_refusals = true /\
  WS.ending (WS.conn cancelled_session) = Some CancelledError /\
  is_Exception CancelledError = false /\
  exit_of (WS.run (WS.init EXTERNAL_WS_URLS)
             (three_refusals ++ cancelled_session :: three_refusals))
    = WS.Propagated CancelledError /\
  List.length (passes_of (WS.run (WS.init EXTERNAL_WS_URLS)
                            (three_refusals ++ cancelled_session :: three_refusals)))
    = 4%nat /\
  WS.current_url_index
    (client_of (WS.run (WS.init EXTERNAL_WS_URLS)
                  (three_refusals ++ cancelled_session :: three_refusals)))
    = 0%nat.
Proof.
  split; [discriminate|]. split; [reflexivity|]. split; [reflexivity|].
  split; [reflexivity|].
  pose proof (run_cancelled_after_finally EXTERNAL_WS_URLS three_refusals
                cancelled_session three_refusals CancelledError) as H.
  destruct H as (H1 & H2 & H3 & _); try reflexivity; [discriminate|].
  split; [exact H1|]. split; [exact H2|exact H3].
Defined.

(** Only what is not an [Exception] leaves the loop of [run] when the
    current index is within the pool. *)
Lemma run_loop_propagates env :
  forall c rd e,
    (WS.current_url_index c < List.length (WS.urls c))%nat ->
    exit_of (WS.run_loop c rd env) = WS.Propagated e ->
    is_Exception e = false.
Proof.
  induction env as [|a env IH]; intros c rd e Hlt Hx.
  - cbn in Hx. destruct (WS.running c); discriminate.
  - destruct (WS.running c) eqn:Hr.
    2:{ rewrite run_loop_stopped in Hx by exact Hr. discriminate. }
    destruct (nth_error (WS.urls c) (WS.current_url_index c)) as [url|] eqn:Hu.
    2:{ apply nth_error_None in Hu. lia. }
    destruct (run_loop_pass c rd a env url Hr Hu) as (p & _ & _ & _ & Heq).
    rewrite Heq in Hx. clear Heq.
    set (c' := {| WS.urls := WS.urls c;
                  WS.current_url_index :=
                    ((WS.current_url_index c + 1) mod List.length (WS.urls c))%nat;
                  WS.running := negb (WS.stop_called a) |}) in *.
    assert (Hlt' : (WS.current_url_index c' < List.length (WS.urls c'))%nat)
      by (apply next_index_lt; exact Hlt).
    assert (Hrec : forall rd',
      exit_of (let '(ps, x, cf, rf) := WS.run_loop c' rd' env in (p :: ps, x, cf, rf))
        = WS.Propagated e -> is_Exception e = false).
    { intros rd' H. apply (IH c' rd' e Hlt').
      destruct (WS.run_loop c' rd' env) as [[[ps x] cf] rf]. exact H. }
    destruct (fst (WS.connect_and_listen url (WS.conn a))) as [u|e'].
    + apply (Hrec _ Hx).
    + destruct (is_Exception e') eqn:He.
      * apply (Hrec _ Hx).
      * unfold exit_of in Hx. cbn in Hx. injection Hx as <-. exact He.
Qed.

(** X3. With an empty pool [run] raises [IndexError] at once, before any
    connection attempt; with a non-empty pool no [Exception] ever leaves
    [run], in particular no [IndexError]: the index stays within the
    pool. *)
Theorem run_index_error_only_for_empty_pool :
  (forall a env,
     WS.run (WS.init []) (a :: env)
       = ([], WS.Propagated IndexError, WS.init [], 1)) /\
  (forall urls env e,
     urls <> [] ->
     exit_of (WS.run (WS.init urls) env) = WS.Propagated e ->
     is_Exception e = false /\ e <> IndexError).
Proof.
  split; [reflexivity|].
  intros urls env e Hne Hx.
  assert (He : is_Exception e = false).
  { apply (run_loop_propagates env (WS.init urls) 1 e); [|exact Hx].
    cbn. destruct urls; [contradiction|cbn; lia]. }
  split; [exact He|]. intros ->. discriminate.
Qed.

(* ================================================================== *)
(** * More on MessageProcessor *)

Section ProcessorCases.

Context `{RT : Runtime}.

(** When [get_timestamp] raises, it is with what the conversion raised
    outside [ValueError] and [TypeError], and nothing was logged. *)
Lemma get_timestamp_raises a v w e w1 :
  MP.get_timestamp a v w = (Raise e, w1) ->
  w1 = w /\ MP.is_ValueError_or_TypeError e = false /\
  exists n, utc_fromtimestamp n = ConvError e /\
            (v = PInt n /\ n <> 0 \/ v = PBool true /\ n = 1).
Proof.
  unfold MP.get_timestamp, MP.fromtimestamp, try_except, bind, logging, ret, raise.
  destruct (truthy v) eqn:Ht; [|discriminate].
  destruct v as [ |b|n|s|xs|kvs|t]; cbn; try discriminate.
  - destruct b; [|discriminate]. cbn.
    destruct (utc_fromtimestamp 1) as [t|e'] eqn:E; [discriminate|].
    destruct (MP.is_ValueError_or_TypeError e') eqn:Hs; [discriminate|].
    intros [= <- <-]. split; [reflexivity|]. split; [exact Hs|].
    exists 1. auto.
  - destruct (utc_fromtimestamp n) as [t|e'] eqn:E; [discriminate|].
    destruct (MP.is_ValueError_or_TypeError e') eqn:Hs; [discriminate|].
    intros [= <- <-]. split; [reflexivity|]. split; [exact Hs|].
    exists n. split; [exact E|]. left. split; [reflexivity|].
    cbn in Ht. intros ->. discriminate.
Qed.

(** The ways [process_message] can go: it raises with the world untouched,
    it drops the event with the world untouched, or it hands the enriched
    document to [index_data], after at most a warning. *)
Lemma process_message_cases p a data w :
  (exists e, MP.process_message p a data w = (Raise e, w)) \/
  MP.process_message p a data w = (Ret tt, w) \/
  (exists d url ts w0,
     data = PDict d /\ maybe_warned w w0 /\
     MP.process_message p a data w
       = MP.index_data p a (PDict (enriched d url ts)) w0).
Proof.
  destruct data as [ |b|n|s|xs|d|t]; try (left; eexists; reflexivity).
  destruct (get_or d "commit" (PDict [])) as [ |b|n|s|xs|c|t] eqn:Hc;
    try (left; exists AttributeError;
         unfold MP.process_message, bind, lift; cbn [py_get]; rewrite Hc;
         reflexivity).
  destruct (get_or c "record" (PDict [])) as [ |b|n|s|xs|r|t] eqn:Hr;
    try (left; exists AttributeError;
         unfold MP.process_message, bind, lift; cbn [py_get]; rewrite Hc;
         cbn [py_get]; rewrite Hr; reflexivity).
  rewrite (process_message_dict p a d c r w Hc Hr).
  destruct (MP.is_language_allowed p (get_or r "langs" (PList []))) as [[|]|e].
  - pose proof (get_timestamp_footprint a (get_or d "time_us" PNone) w) as Hw.
    destruct (MP.get_timestamp a (get_or d "time_us" PNone) w) as [[ts|e] w1] eqn:E.
    + right. right. cbn [snd] in Hw. eexists d, _, ts, w1. auto.
    + left. exists e. destruct (get_timestamp_raises _ _ _ _ _ E) as [-> _].
      reflexivity.
  - right. left. reflexivity.
  - left. exists e. reflexivity.
Qed.

Lemma doc_id_raises data w e w0 :
  MP.doc_id data w = (Raise e, w0) -> e = AttributeError.
Proof.
  unfold MP.doc_id, bind, lift, ret.
  destruct data as [ |b|n|s|xs|d|t]; cbn; try (intros [= <- _]; reflexivity).
  destruct (get_or d "commit" (PDict [])) as [ |b|n|s|xs|c|t]; cbn;
    try (intros [= <- _]; reflexivity).
  destruct (truthy (get_or c "cid" PNone)); discriminate.
Qed.

(** [index_data] raises only what the store raised outside [Exception]. *)
Lemma index_data_raises p a data w e w1 :
  MP.index_data p a data w = (Raise e, w1) ->
  is_Exception e = false /\ exists id, es_reply a id data = Some e.
Proof.
  destruct (MP.es_client p) eqn:Hc.
  2:{ unfold MP.index_data. rewrite Hc. discriminate. }
  pose proof (doc_id_pure data w) as Hp.
  destruct (MP.doc_id data w) as [[id|e'] w0] eqn:Hd; cbn in Hp; subst w0.
  - rewrite (index_data_call p a data id w Hc Hd). unfold index_outcome.
    destruct (es_reply a id data) as [e'|] eqn:E; [|discriminate].
    destruct (is_Exception e') eqn:He; [discriminate|].
    intros [= <- <-]. split; [exact He|]. exists id. exact E.
  - unfold MP.index_data. rewrite Hc. cbn [negb].
    unfold try_except, bind. rewrite Hd.
    rewrite (doc_id_raises _ _ _ _ Hd). discriminate.
Qed.

Lemma index_data_acked p a data w :
  acked (snd (MP.index_data p a data w)) = acked w.
Proof.
  destruct (MP.es_client p) eqn:Hc.
  2:{ unfold MP.index_data. rewrite Hc. reflexivity. }
  pose proof (doc_id_pure data w) as Hp.
  destruct (MP.doc_id data w) as [[id|e] w0] eqn:Hd; cbn in Hp; subst w0.
  - rewrite (index_data_call p a data id w Hc Hd). unfold index_outcome.
    destruct (es_reply a id data) as [e|]; [destruct (is_Exception e)|];
      reflexivity.
  - unfold MP.index_data. rewrite Hc. cbn [negb].
    unfold try_except, bind. rewrite Hd.
    destruct (is_Exception e); reflexivity.
Qed.

Lemma process_message_acked p a data w :
  acked (snd (MP.process_message p a data w)) = acked w.
Proof.
  destruct (process_message_cases p a data w)
    as [[e ->]|[->|(d & url & ts & w0 & _ & Hw & ->)]]; try reflexivity.
  rewrite index_data_acked. destruct Hw as [->| ->]; reflexivity.
Qed.

Lemma handle_message_acked p a message w :
  acked (snd (MP.handle_message p a message w)) = acked w.
Proof.
  unfold MP.handle_message, try_except, bind at 1.
  destruct (json_loads message) as [data|e]; unfold ret, raise.
  - pose proof (process_message_acked p a data w) as H.
    destruct (MP.process_message p a data w) as [[u|e] w1]; cbn [snd] in *.
    + exact H.
    + destruct (MP.is_JSONDecodeError e); [|exact H]. cbn. exact H.
  - destruct (MP.is_JSONDecodeError e); reflexivity.
Qed.

Lemma calls_at_most_one_more w w1 :
  at_most_one_call w w1 ->
  (List.length (calls w1) <= S (List.length (calls w)))%nat.
Proof.
  intros [[H _]|(id & doc & H & _)]; rewrite H; [lia|].
  rewrite length_app. cbn. lia.
Qed.

(** A worker at its loop test with the flag cleared returns; otherwise it
    is in a pass. *)
Lemma worker_loop_blocked b p evs w :
  negb b && negb (MP.running p) = true ->
  MP.worker_loop b p evs w = (MP.Stopped, p, w).
Proof. intros H. destruct evs; cbn [MP.worker_loop]; rewrite H; reflexivity. Qed.

Lemma worker_loop_entered b p evs w :
  negb b && negb (MP.running p) = false ->
  MP.worker_loop b p evs w = MP.worker_loop true p evs w.
Proof.
  intros H. destruct evs; cbn [MP.worker_loop negb andb]; rewrite H; reflexivity.
Qed.

(** One item of the queue, as a pass of the loop treats it. *)
Lemma worker_loop_item p a message evs w :
  MP.worker_loop true p (MP.Got message a :: evs) w =
  match MP.handle_message p a message w with
  | (Ret _, w1) => MP.worker_loop false p evs (ack w1)
  | (Raise e, w1) =>
      if is_Exception e
      then MP.worker_loop false p evs (ack (add_log handling_failure w1))
      else match e with
           | CancelledError =>
               (MP.Broke, p,
                add_log (Log INFO "Worker task cancelled. Exiting...") (ack w1))
           | _ => (MP.Propagated e, p, ack w1)
           end
  end.
Proof.
  cbn [MP.worker_loop negb andb].
  unfold MP.handle_item, try_except.
  destruct (MP.handle_message p a message w) as [[u|e] w1]; [reflexivity|].
  destruct e; reflexivity.
Qed.

(** X4. Every item a worker takes from the queue is acknowledged with
    [task_done] exactly once, whether its handling succeeded, failed or
    was cancelled; and the store is called at most once per acknowledged
    item. *)
Theorem worker_accounting evs :
  forall p w x p' w',
    MP.worker p evs w = (x, p', w') ->
    (acked w <= acked w' <= acked w + count_got evs)%nat /\
    (List.length (calls w') + acked w <= List.length (calls w) + acked w')%nat /\
    (x = MP.Suspended -> acked w' = (acked w + count_got evs)%nat).
Proof.
  unfold MP.worker.
  assert (H : forall b p w x p' w',
            MP.worker_loop b p evs w = (x, p', w') ->
            (acked w <= acked w' <= acked w + count_got evs)%nat /\
            (List.length (calls w') + acked w
             <= List.length (calls w) + acked w')%nat /\
            (x = MP.Suspended -> acked w' = (acked w + count_got evs)%nat)).
  2:{ intros p w x p' w'. apply H. }
  induction evs as [|ev evs IH]; intros b p w x p' w' Hw.
  - cbn in Hw. destruct (negb b && negb (MP.running p));
      injection Hw as <- <- <-; repeat split; cbn; lia.
  - destruct (negb b && negb (MP.running p)) eqn:Hb.
    { rewrite (worker_loop_blocked b p _ w Hb) in Hw. injection Hw as <- <- <-.
      repeat split; try lia. discriminate. }
    rewrite (worker_loop_entered b p _ w Hb) in Hw.
    destruct ev as [message a| | | ].
    + rewrite (worker_loop_item p a message evs w) in Hw.
      pose proof (handle_message_acked p a message w) as Ha.
      pose proof (calls_at_most_one_more _ _ (handle_message_footprint p a message w))
        as Hc.
      destruct (MP.handle_message p a message w) as [[u|e] w1]; cbn [snd] in Ha, Hc.
      * destruct (IH _ _ _ _ _ _ Hw) as (H1 & H2 & H3). cbn in H1, H2, H3 |- *.
        repeat split; try lia. intros Hx. specialize (H3 Hx). lia.
      * destruct (is_Exception e).
        -- destruct (IH _ _ _ _ _ _ Hw) as (H1 & H2 & H3). cbn in H1, H2, H3 |- *.
           repeat split; try lia. intros Hx. specialize (H3 Hx). lia.
        -- destruct e; injection Hw as <- <- <-; cbn;
             (repeat split; try lia; discriminate).
    + cbn [MP.worker_loop negb andb] in Hw.
      destruct (IH _ _ _ _ _ _ Hw) as (H1 & H2 & H3). cbn.
      repeat split; try lia. exact H3.
    + cbn [MP.worker_loop negb andb] in Hw.
      injection Hw as <- <- <-. cbn. repeat split; try lia. discriminate.
    + cbn [MP.worker_loop negb andb] in Hw.
      destruct (IH _ _ _ _ _ _ Hw) as (H1 & H2 & H3). cbn.
      repeat split; try lia. exact H3.
Qed.

End ProcessorCases.

Lemma worker_accounting_witness :
  MP.worker main_processor sample_events empty_world
    = (MP.Suspended, main_processor, sample_world) /\
  acked sample_world = (acked empty_world + count_got sample_events)%nat /\
  (List.length (calls sample_world) + acked empty_world
   <= List.length (calls empty_world) + acked sample_world)%nat.
Proof.
  split; [reflexivity|].
  pose proof (worker_accounting sample_events main_processor empty_world
                MP.Suspended main_processor sample_world eq_refl)
    as (_ & H2 & H3).
  split; [exact (H3 eq_refl)|exact H2].
Defined.

Section WorkerLoop.

Context `{RT : Runtime}.

Lemma worker_stopped p evs w :
  MP.running p = false -> MP.worker p evs w = (MP.Stopped, p, w).
Proof.
  intros H. unfold MP.worker. apply worker_loop_blocked. now rewrite H.
Qed.

(** A worker that is waiting for its next event passed its first loop
    test. *)
Lemma worker_suspended p evs w p' w' :
  MP.worker p evs w = (MP.Suspended, p', w') -> MP.running p = true.
Proof.
  intros Hw. destruct (MP.running p) eqn:Hr; [reflexivity|].
  rewrite worker_stopped in Hw by exact Hr. discriminate.
Qed.

(** A worker's events in two parts: the second part is met only if the
    first was consumed without leaving the loop, and it is met inside the
    pass the first part left the worker in. *)
Lemma worker_loop_app evs1 :
  forall b p evs2 w,
    MP.worker_loop b p (evs1 ++ evs2) w =
    match MP.worker_loop b p evs1 w with
    | (MP.Suspended, p1, w1) => MP.worker_loop true p1 evs2 w1
    | r => r
    end.
Proof.
  induction evs1 as [|ev evs1 IH]; intros b p evs2 w.
  - cbn [app]. destruct (negb b && negb (MP.running p)) eqn:Hb.
    + rewrite !(worker_loop_blocked b p _ w Hb). reflexivity.
    + rewrite (worker_loop_entered b p evs2 w Hb).
      cbn [MP.worker_loop]. rewrite Hb. reflexivity.
  - cbn [app]. destruct (negb b && negb (MP.running p)) eqn:Hb.
    { rewrite !(worker_loop_blocked b p _ w Hb). reflexivity. }
    rewrite !(worker_loop_entered b p (ev :: _) w Hb).
    destruct ev as [message a| | | ].
    + rewrite !(worker_loop_item p a message _ w).
      destruct (MP.handle_message p a message w) as [[u|e] w1].
      * apply IH.
      * destruct (is_Exception e); [apply IH|]. destruct e; reflexivity.
    + cbn [MP.worker_loop negb andb]. apply IH.
    + reflexivity.
    + cbn [MP.worker_loop negb andb]. apply IH.
Qed.

(** [stop()] changes the flag only: an item is handled alike before and
    after it. *)
Lemma handle_item_stop p a message w :
  MP.handle_item (MP.stop p) a message w = MP.handle_item p a message w.
Proof. reflexivity. Qed.

Lemma handle_item_acked p a message w :
  acked (snd (MP.handle_item p a message w)) = S (acked w).
Proof.
  unfold MP.handle_item, try_except.
  pose proof (handle_message_acked p a message w) as Ha.
  destruct (MP.handle_message p a message w) as [[u|e] w1]; cbn [snd] in Ha.
  - cbn. now rewrite Ha.
  - destruct (is_Exception e); cbn; now rewrite Ha.
Qed.

(** X5. [self.running] is read at the loop test only.  When [stop()] runs
    while a worker is suspended in a pass, the worker stays in [get]; what
    [get] then ends with is handled as in any other pass (an item is
    processed and acknowledged, a timeout is passed over, a cancellation
    is logged and ends the worker), and the loop test that follows ends
    the worker: the items after that one are not handled.  A cancellation
    in [get] ends the worker at once, and a worker whose processor was
    stopped before its first loop test handles nothing. *)
Theorem worker_leaves_rest_untouched p evs1 evs2 w w1 :
  MP.worker p evs1 w = (MP.Suspended, p, w1) ->
  MP.worker p (evs1 ++ [MP.StopCalled]) w = (MP.Suspended, MP.stop p, w1) /\
  (forall message a,
     MP.worker p (evs1 ++ MP.StopCalled :: MP.Got message a :: evs2) w =
       match MP.handle_item p a message w1 with
       | (Ret _, w2) => (MP.Stopped, MP.stop p, w2)
       | (Raise CancelledError, w2) =>
           (MP.Broke, MP.stop p, add_log cancelled_line w2)
       | (Raise e, w2) => (MP.Propagated e, MP.stop p, w2)
       end /\
     acked (snd (MP.handle_item p a message w1)) = S (acked w1)) /\
  MP.worker p (evs1 ++ MP.StopCalled :: MP.TimedOut :: evs2) w
    = (MP.Stopped, MP.stop p, w1) /\
  MP.worker p (evs1 ++ MP.StopCalled :: MP.Cancelled :: evs2) w
    = (MP.Broke, MP.stop p, add_log cancelled_line w1) /\
  MP.worker p (evs1 ++ MP.Cancelled :: evs2) w
    = (MP.Broke, p, add_log cancelled_line w1) /\
  MP.worker (MP.stop p) (evs1 ++ evs2) w = (MP.Stopped, MP.stop p, w).
Proof.
  intros Hw. pose proof (worker_suspended _ _ _ _ _ Hw) as Hr.
  assert (Hlast : forall evs w2,
            MP.worker_loop false (MP.stop p) evs w2 = (MP.Stopped, MP.stop p, w2))
    by (intros evs w2; apply worker_loop_blocked; reflexivity).
  unfold MP.worker in *. rewrite !worker_loop_app, Hw.
  split; [reflexivity|]. split; [|split; [|split; [|split]]].
  - intros message a. split; [|apply handle_item_acked].
    rewrite worker_loop_app, Hw.
    cbn [MP.worker_loop negb andb]. rewrite handle_item_stop.
    destruct (MP.handle_item p a message w1) as [[u|e] w2]; [apply Hlast|].
    destruct e; reflexivity.
  - cbn [MP.worker_loop negb andb]. apply Hlast.
  - reflexivity.
  - reflexivity.
  - rewrite <- worker_loop_app. apply Hlast.
Qed.

Lemma index_data_no_client p a data w :
  MP.es_client p = false ->
  MP.index_data p a data w = (Ret tt, add_log no_client_line w).
Proof. intros H. unfold MP.index_data. rewrite H. reflexivity. Qed.

Lemma handle_message_no_client p a message w :
  MP.es_client p = false ->
  calls (snd (MP.handle_message p a message w)) = calls w /\
  store (snd (MP.handle_message p a message w)) = store w.
Proof.
  intros Hc.
  assert (Hp : forall data,
             calls (snd (MP.process_message p a data w)) = calls w /\
             store (snd (MP.process_message p a data w)) = store w).
  { intros data.
    destruct (process_message_cases p a data w)
      as [[e ->]|[->|(d & url & ts & w0 & _ & Hw & ->)]]; auto.
    rewrite (index_data_no_client p a _ w0 Hc).
    destruct Hw as [->| ->]; auto. }
  remember (MP.handle_message p a message w) as res eqn:E.
  unfold MP.handle_message, try_except, bind in E.
  destruct (json_loads message) as [data|e]; unfold ret, raise in E.
  - specialize (Hp data).
    destruct (MP.process_message p a data w) as [[u|e] w1]; cbn [snd] in Hp.
    + subst res. exact Hp.
    + destruct (MP.is_JSONDecodeError e); subst res; exact Hp.
  - destruct (MP.is_JSONDecodeError e); subst res; auto.
Qed.

(** X6. A processor built without a client never calls the store, whatever
    its workers are fed: the calls and the index are left as they were. *)
Theorem worker_without_client_never_writes evs :
  forall p w,
    MP.es_client p = false ->
    calls (snd (MP.worker p evs w)) = calls w /\
    store (snd (MP.worker p evs w)) = store w.
Proof.
  unfold MP.worker.
  assert (H : forall b p w,
            MP.es_client p = false ->
            calls (snd (MP.worker_loop b p evs w)) = calls w /\
            store (snd (MP.worker_loop b p evs w)) = store w).
  2:{ intros p w. apply H. }
  induction evs as [|ev evs IH]; intros b p w Hc.
  - cbn. destruct (negb b && negb (MP.running p)); auto.
  - destruct (negb b && negb (MP.running p)) eqn:Hb.
    { rewrite (worker_loop_blocked b p _ w Hb). auto. }
    rewrite (worker_loop_entered b p _ w Hb).
    destruct ev as [message a| | | ].
    + rewrite (worker_loop_item p a message evs w).
      destruct (handle_message_no_client p a message w Hc) as [H1 H2].
      destruct (MP.handle_message p a message w) as [[u|e] w1]; cbn [snd] in H1, H2.
      * destruct (IH false p (ack w1) Hc) as [I1 I2]. rewrite I1, I2. auto.
      * destruct (is_Exception e).
        -- destruct (IH false p (ack (add_log handling_failure w1)) Hc) as [I1 I2].
           rewrite I1, I2. auto.
        -- destruct e; auto.
    + cbn [MP.worker_loop negb andb]. apply IH. exact Hc.
    + cbn [MP.worker_loop negb andb]. auto.
    + cbn [MP.worker_loop negb andb]. apply IH. exact Hc.
Qed.

End WorkerLoop.

Section Edges.

Context `{RT : Runtime}.

Lemma shown_get d k :
  py_format (get_or d k (PStr "unknown")) = shown (dict_get k d).
Proof. unfold get_or, shown. destruct (dict_get k d); reflexivity. Qed.

(** As [process_message_indexes], for any [did] and [rkey] entries. *)
Lemma process_message_indexes_shown p a d c r ts w :
  MP.es_client p = true ->
  get_or d "commit" (PDict []) = PDict c ->
  get_or c "record" (PDict []) = PDict r ->
  MP.is_language_allowed p (get_or r "langs" (PList [])) = Ret true ->
  stamp a (dict_get "time_us" d) ts ->
  exists w0,
    maybe_warned w w0 /\
    MP.process_message p a (PDict d) w =
      index_outcome a (document_id d c)
        (PDict (enriched d (post_url (shown (dict_get "did" d))
                                     (shown (dict_get "rkey" c))) ts)) w0.
Proof.
  intros Hes Hc Hr Hl Hst.
  destruct (get_timestamp_stamp a _ ts w Hst) as (w0 & Hts & Hw).
  exists w0. split; [exact Hw|].
  rewrite (process_message_dict p a d c r w Hc Hr), Hl.
  unfold get_or at 1. rewrite Hts. rewrite !shown_get.
  rewrite (index_data_call p a _ (document_id d c) w0 Hes); [reflexivity|].
  rewrite (doc_id_dict _ c).
  - now rewrite document_id_enriched.
  - rewrite get_or_enriched by discriminate. exact Hc.
Qed.

Lemma handle_message_passes_on p a message data e w w1 :
  json_loads message = Loaded data ->
  MP.process_message p a data w = (Raise e, w1) ->
  MP.is_JSONDecodeError e = false ->
  MP.handle_message p a message w = (Raise e, w1).
Proof.
  intros Hl Hp He. unfold MP.handle_message, try_except, bind.
  rewrite Hl. unfold ret. rewrite Hp, He. reflexivity.
Qed.

(** X7. A [time_us] whose conversion raises anything but [ValueError] or
    [TypeError] (an [OverflowError] for a huge integer) is not caught by
    [get_timestamp]: [process_message] raises it before any call to the
    store and without a log line of its own; the worker logs the failure,
    acknowledges the item and goes on. *)
Theorem unconvertible_time_us_drops_message p a message d c r n e evs w :
  MP.running p = true ->
  json_loads message = Loaded (PDict d) ->
  get_or d "commit" (PDict []) = PDict c ->
  get_or c "record" (PDict []) = PDict r ->
  MP.is_language_allowed p (get_or r "langs" (PList [])) = Ret true ->
  dict_get "time_us" d = Some (PInt n) ->
  n <> 0 ->
  utc_fromtimestamp n = ConvError e ->
  MP.is_ValueError_or_TypeError e = false ->
  is_Exception e = true ->
  MP.process_message p a (PDict d) w = (Raise e, w) /\
  MP.worker p (MP.Got message a :: evs) w
    = MP.worker p evs (ack (add_log handling_failure w)).
Proof.
  intros Hr Hl Hc Hrec Hal Ht Hn Hu Hs He.
  assert (Hp : MP.process_message p a (PDict d) w = (Raise e, w)).
  { rewrite (process_message_dict p a d c r w Hc Hrec), Hal.
    unfold get_or. rewrite Ht.
    unfold MP.get_timestamp, MP.fromtimestamp, try_except. cbn [truthy].
    destruct (n =? 0) eqn:E; [apply Z.eqb_eq in E; contradiction|]. cbn [negb].
    rewrite Hu. unfold raise. now rewrite Hs. }
  split; [exact Hp|].
  rewrite (worker_item p a message evs w Hr).
  rewrite (handle_message_passes_on p a message _ e w w Hl Hp).
  - now rewrite He.
  - destruct e; try reflexivity; discriminate.
Qed.

Lemma in_existsb s allow : In s allow -> existsb (String.eqb s) allow = true.
Proof.
  intros H. apply existsb_exists. exists s. split; [exact H|apply String.eqb_refl].
Qed.

(** X8. [is_language_allowed]: with an empty allow-list everything is
    allowed, whatever [langs] is; with a non-empty one a list of languages
    is allowed exactly when one of its strings is in the allow-list. *)
Theorem language_allowed_iff p :
  (MP.language_filter p = [] ->
   forall v, MP.is_language_allowed p v = Ret true) /\
  (MP.language_filter p <> [] ->
   forall xs,
     (MP.is_language_allowed p (PList xs) = Ret true <->
      exists s, In (PStr s) xs /\ In s (MP.language_filter p)) /\
     (MP.is_language_allowed p (PList xs) = Ret false <->
      disjoint xs (MP.language_filter p))).
Proof.
  split.
  - intros Hf v. unfold MP.is_language_allowed. now rewrite Hf.
  - intros Hne xs.
    assert (Heq : MP.is_language_allowed p (PList xs)
                  = Ret (existsb (fun lang => py_in lang (MP.language_filter p)) xs)).
    { unfold MP.is_language_allowed.
      destruct (MP.language_filter p); [contradiction|reflexivity]. }
    rewrite Heq.
    assert (Hex : existsb (fun lang => py_in lang (MP.language_filter p)) xs = true <->
                  exists s, In (PStr s) xs /\ In s (MP.language_filter p)).
    { rewrite existsb_exists. split.
      - intros (v & Hin & Hv). destruct v; try discriminate. cbn in Hv.
        apply existsb_exists in Hv as (s' & Hs' & E). apply String.eqb_eq in E.
        subst s'. eauto.
      - intros (s & Hin & Hs). exists (PStr s). split; [exact Hin|].
        cbn. now apply in_existsb. }
    split.
    + split.
      * intros [= H]. now apply Hex.
      * intros H. f_equal. now apply Hex.
    + split.
      * intros [= H] s Hin Hs.
        assert (existsb (fun lang => py_in lang (MP.language_filter p)) xs = true)
          by (apply Hex; eauto).
        congruence.
      * intros Hd. f_equal. now apply disjoint_not_allowed.
Qed.

(** X9. A [langs] that cannot be iterated ([null], a number) is an error
    under a non-empty allow-list, not a silent drop: [process_message]
    raises [TypeError], and the worker logs the failure and goes on. *)
Theorem non_iterable_langs_is_an_error p a message data v evs w :
  MP.running p = true ->
  json_loads message = Loaded data ->
  MP.language_filter p <> [] ->
  langs_of data = Ret v ->
  py_iter v = Raise TypeError ->
  MP.process_message p a data w = (Raise TypeError, w) /\
  MP.worker p (MP.Got message a :: evs) w
    = MP.worker p evs (ack (add_log handling_failure w)).
Proof.
  intros Hr Hl Hne Hlangs Hit.
  assert (Hp : MP.process_message p a data w = (Raise TypeError, w)).
  { destruct (langs_of_inv _ _ Hlangs) as (d & c & r & -> & Hc & Hrec & ->).
    rewrite (process_message_dict p a d c r w Hc Hrec).
    unfold MP.is_language_allowed.
    destruct (MP.language_filter p); [contradiction|]. now rewrite Hit. }
  split; [exact Hp|].
  rewrite (worker_item p a message evs w Hr).
  now rewrite (handle_message_passes_on p a message _ TypeError w w Hl Hp eq_refl).
Qed.

(** X10. A payload whose top level, [commit] or [record] is not an object
    is rejected with [AttributeError] before the language filter is
    consulted, so under any allow-list, the empty one included: nothing is
    written and [process_message] logs nothing; the worker logs the
    failure and goes on. *)
Theorem non_object_is_rejected p a message data e evs w :
  MP.running p = true ->
  json_loads message = Loaded data ->
  langs_of data = Raise e ->
  e = AttributeError /\
  MP.process_message p a data w = (Raise AttributeError, w) /\
  MP.worker p (MP.Got message a :: evs) w
    = MP.worker p evs (ack (add_log handling_failure w)).
Proof.
  intros Hr Hl Hrec.
  assert (Hp : e = AttributeError /\
               MP.process_message p a data w = (Raise AttributeError, w)).
  { unfold langs_of, record_of, commit_field, commit_of in Hrec.
    unfold MP.process_message, bind, lift.
    destruct data as [ |b|n|s|xs|d|t]; cbn in Hrec |- *;
      try (injection Hrec as <-; auto).
    destruct (get_or d "commit" (PDict [])) as [ |b|n|s|xs|c|t]; cbn in Hrec |- *;
      try (injection Hrec as <-; auto).
    destruct (get_or c "record" (PDict [])) as [ |b|n|s|xs|r|t]; cbn in Hrec |- *;
      try (injection Hrec as <-; auto).
    discriminate. }
  destruct Hp as [-> Hp]. split; [reflexivity|]. split; [exact Hp|].
  rewrite (worker_item p a message evs w Hr).
  now rewrite (handle_message_passes_on p a message _ AttributeError w w Hl Hp eq_refl).
Qed.

(** X11. An event that gets past the filter is written whatever its [did]
    and [rkey] are: in [post_url] a missing one reads [unknown], a [null]
    one [None], a number its digits; the placeholder is not added to the
    document as a field, and the composite document id uses the empty
    string for a missing [did], not the placeholder. *)
Theorem url_placeholders p a d c r ts w :
  MP.es_client p = true ->
  get_or d "commit" (PDict []) = PDict c ->
  get_or c "record" (PDict []) = PDict r ->
  MP.is_language_allowed p (get_or r "langs" (PList [])) = Ret true ->
  stamp a (dict_get "time_us" d) ts ->
  calls (snd (MP.process_message p a (PDict d) w)) =
    calls w ++
    [(document_id d c,
      PDict (enriched d (post_url (shown (dict_get "did" d))
                                  (shown (dict_get "rkey" c))) ts))] /\
  (dict_get "did" d = None ->
   shown (dict_get "did" d) = "unknown" /\
   dict_get "did" (enriched d (post_url (shown (dict_get "did" d))
                                        (shown (dict_get "rkey" c))) ts) = None /\
   (truthy (get_or c "cid" PNone) = false ->
    document_id d c = PStr ("_" ++ field_text d "time_us")%string)) /\
  (dict_get "did" d = Some PNone -> shown (dict_get "did" d) = "None") /\
  (forall n, dict_get "rkey" c = Some (PInt n) ->
     shown (dict_get "rkey" c) = NilZero.string_of_int (Z.to_int n)).
Proof.
  intros Hes Hc Hr Hl Hst.
  destruct (process_message_indexes_shown p a d c r ts w Hes Hc Hr Hl Hst)
    as (w0 & Hw & Hmsg).
  split.
  { rewrite Hmsg. unfold index_outcome.
    assert (Hcalls : calls w0 = calls w) by (destruct Hw as [->| ->]; reflexivity).
    destruct (es_reply a _ _) as [e|]; [destruct (is_Exception e)|]; cbn;
      now rewrite Hcalls. }
  split.
  { intros Hd. split; [now rewrite Hd|]. split.
    - rewrite (proj2 (proj2 (enriched_fields d _ ts))) by discriminate. exact Hd.
    - intros Hcid. unfold document_id, field_text. now rewrite Hcid, Hd. }
  split.
  { intros Hd. now rewrite Hd. }
  intros n Hk. now rewrite Hk.
Qed.


End Edges.

(* ================================================================== *)
(** * The further theorems at sample data *)

Lemma worker_leaves_rest_untouched_witness :
  MP.worker main_processor sample_events empty_world
    = (MP.Suspended, main_processor, sample_world) /\
  MP.worker main_processor (sample_events ++ MP.StopCalled :: sample_events)
    empty_world
    = (MP.Stopped, MP.stop main_processor,
       snd (MP.handle_item main_processor (calm reading) "{}" sample_world)) /\
  acked (snd (MP.handle_item main_processor (calm reading) "{}" sample_world))
    = 4%nat /\
  MP.worker main_processor
    (sample_events ++ MP.StopCalled :: MP.TimedOut :: sample_events) empty_world
    = (MP.Stopped, MP.stop main_processor, sample_world) /\
  MP.worker main_processor (sample_events ++ MP.Cancelled :: sample_events)
    empty_world = (MP.Broke, main_processor, add_log cancelled_line sample_world).
Proof.
  split; [reflexivity|].
  pose proof (worker_leaves_rest_untouched main_processor sample_events
                sample_events empty_world sample_world eq_refl)
    as (_ & _ & H3 & _ & H5 & _).
  pose proof (worker_leaves_rest_untouched main_processor sample_events
                (List.tl sample_events) empty_world sample_world eq_refl)
    as (_ & H2 & _).
  destruct (H2 "{}" (calm reading)) as [Hgot Hack].
  split; [exact Hgot|]. split; [exact Hack|]. split; [exact H3|exact H5].
Defined.

Lemma worker_without_client_never_writes_witness :
  MP.es_client bare_processor = false /\
  calls (snd (MP.worker bare_processor sample_events empty_world)) = [] /\
  store (snd (MP.worker bare_processor sample_events empty_world)) = [] /\
  log (snd (MP.worker bare_processor sample_events empty_world))
    = [no_client_line; handling_failure; decode_failure].
Proof.
  split; [reflexivity|].
  pose proof (worker_without_client_never_writes sample_events bare_processor
                empty_world eq_refl) as [H1 H2].
  split; [exact H1|]. split; [exact H2|reflexivity].
Defined.

Lemma unconvertible_time_us_drops_message_witness :
  MP.running english_only = true /\
  @json_loads firehose_runtime payload_far = Loaded (PDict (fields post_far)) /\
  get_or (fields post_far) "commit" (PDict []) = PDict (commit_fields post_far) /\
  get_or (commit_fields post_far) "record" (PDict [])
    = PDict (record_fields post_far) /\
  @MP.is_language_allowed english_only
    (get_or (record_fields post_far) "langs" (PList [])) = Ret true /\
  dict_get "time_us" (fields post_far) = Some (PInt (10 ^ 25)) /\
  10 ^ 25 <> 0 /\
  @utc_fromtimestamp firehose_runtime (10 ^ 25) = ConvError OverflowError /\
  MP.is_ValueError_or_TypeError OverflowError = false /\
  is_Exception OverflowError = true /\
  @MP.process_message firehose_runtime english_only (calm reading)
    (PDict (fields post_far)) empty_world = (Raise OverflowError, empty_world) /\
  @MP.worker firehose_runtime english_only [MP.Got payload_far (calm reading)]
    empty_world
    = @MP.worker firehose_runtime english_only []
        (ack (add_log handling_failure empty_world)).
Proof.
  assert (Hn : 10 ^ 25 <> 0) by discriminate.
  repeat (split; [reflexivity|]). split; [exact Hn|].
  repeat (split; [reflexivity|]).
  apply (@unconvertible_time_us_drops_message firehose_runtime english_only
           (calm reading) payload_far (fields post_far) (commit_fields post_far)
           (record_fields post_far) (10 ^ 25) OverflowError [] empty_world);
    try reflexivity. exact Hn.
Defined.

Lemma language_allowed_iff_witness :
  MP.language_filter english_only <> [] /\
  MP.is_language_allowed english_only (PList [PStr "fr"; PInt 7; PStr "en"])
    = Ret true /\
  MP.is_language_allowed main_processor PNone = Ret true.
Proof.
  split; [discriminate|]. split.
  - apply (proj2 (language_allowed_iff english_only)); [discriminate|].
    exists "en". split; [right; right; left; reflexivity|left; reflexivity].
  - apply (proj1 (language_allowed_iff main_processor)). reflexivity.
Defined.

Lemma non_iterable_langs_is_an_error_witness :
  MP.running english_only = true /\
  @json_loads firehose_runtime payload_null_langs = Loaded post_null_langs /\
  MP.language_filter english_only <> [] /\
  langs_of post_null_langs = Ret PNone /\
  py_iter PNone = Raise TypeError /\
  @MP.process_message firehose_runtime english_only (calm reading)
    post_null_langs empty_world = (Raise TypeError, empty_world) /\
  @MP.worker firehose_runtime english_only
    [MP.Got payload_null_langs (calm reading)] empty_world
    = @MP.worker firehose_runtime english_only []
        (ack (add_log handling_failure empty_world)).
Proof.
  split; [reflexivity|]. split; [reflexivity|]. split; [discriminate|].
  split; [reflexivity|]. split; [reflexivity|].
  apply (@non_iterable_langs_is_an_error firehose_runtime english_only
           (calm reading) payload_null_langs post_null_langs PNone [] empty_world);
    try reflexivity. discriminate.
Defined.

Lemma non_object_is_rejected_witness :
  MP.running main_processor = true /\
  @json_loads firehose_runtime payload_null_commit = Loaded post_null_commit /\
  langs_of post_null_commit = Raise AttributeError /\
  @MP.process_message firehose_runtime main_processor (calm reading)
    post_null_commit empty_world = (Raise AttributeError, empty_world) /\
  @MP.worker firehose_runtime main_processor
    [MP.Got payload_null_commit (calm reading)] empty_world
    = @MP.worker firehose_runtime main_processor []
        (ack (add_log handling_failure empty_world)).
Proof.
  split; [reflexivity|]. split; [reflexivity|]. split; [reflexivity|].
  apply (@non_object_is_rejected firehose_runtime main_processor (calm reading)
           payload_null_commit post_null_commit AttributeError [] empty_world);
    reflexivity.
Defined.

Lemma url_placeholders_witness :
  MP.es_client main_processor = true /\
  get_or [] "commit" (PDict []) = PDict [] /\
  get_or [] "record" (PDict []) = PDict [] /\
  MP.is_language_allowed main_processor (get_or [] "langs" (PList [])) = Ret true /\
  stamp (calm reading) (dict_get "time_us" []) reading /\
  calls (snd (MP.process_message main_processor (calm reading) (PDict [])
                empty_world))
    = [(PStr "_",
        PDict (enriched [] "https://bsky.app/profile/unknown/post/unknown" reading))].
Proof.
  assert (Hst : stamp (calm reading) (dict_get "time_us" []) reading)
    by apply (stamp_absent (calm reading)).
  repeat (split; [reflexivity|]). split; [exact Hst|].
  exact (proj1 (url_placeholders main_processor (calm reading) [] [] [] reading
                  empty_world eq_refl eq_refl eq_refl eq_refl Hst)).
Defined.


(* ================================================================== *)
(** * Theorems: the index at startup *)

(** X13. [create_index_with_dynamic_mapping] makes sure the index exists and
    touches nothing else: an index that is there keeps the body it has
    (the mapping is not applied to it), a missing one is created with the
    mapping, no other index is changed, and a second run changes nothing;
    what [indices.exists] raises leaves the function with the store as it
    was. *)
Theorem create_index_is_idempotent (index_name : string) (cl : Startup.cluster) :
  fst (Startup.create_index_with_dynamic_mapping Startup.quiet index_name cl)
    = Ret tt /\
  Startup.indices_exists index_name
    (snd (Startup.create_index_with_dynamic_mapping Startup.quiet index_name cl))
    = true /\
  (Startup.indices_exists index_name cl = true ->
   Startup.indices
     (snd (Startup.create_index_with_dynamic_mapping Startup.quiet index_name cl))
   = Startup.indices cl) /\
  (forall n b,
     In (n, b) (Startup.indices cl) ->
     In (n, b)
       (Startup.indices
          (snd (Startup.create_index_with_dynamic_mapping Startup.quiet
                  index_name cl)))) /\
  (forall n b,
     In (n, b)
       (Startup.indices
          (snd (Startup.create_index_with_dynamic_mapping Startup.quiet
                  index_name cl))) ->
     In (n, b) (Startup.indices cl) \/ (n = index_name /\ b = Startup.mapping)) /\
  Startup.indices
    (snd (Startup.create_index_with_dynamic_mapping Startup.quiet index_name
            (snd (Startup.create_index_with_dynamic_mapping Startup.quiet
                    index_name cl))))
  = Startup.indices
      (snd (Startup.create_index_with_dynamic_mapping Startup.quiet index_name cl)) /\
  (forall r e,
     Startup.exists_raises r = Some e ->
     Startup.create_index_with_dynamic_mapping r index_name cl = (Raise e, cl)).
Proof.
  assert (Hsame : forall j,
            Startup.indices_exists index_name
              {| Startup.indices := Startup.indices cl; Startup.journal := j |}
            = Startup.indices_exists index_name cl) by reflexivity.
  assert (Hnow : forall j,
            Startup.indices_exists index_name
              {| Startup.indices := Startup.indices cl ++
                                      [(index_name, Startup.mapping)];
                 Startup.journal := j |} = true).
  { intros j. unfold Startup.indices_exists. cbn [Startup.indices].
    rewrite existsb_app. cbn. rewrite String.eqb_refl. apply orb_true_r. }
  unfold Startup.create_index_with_dynamic_mapping.
  cbn [Startup.quiet Startup.exists_raises Startup.create_raises].
  destruct (Startup.indices_exists index_name cl) eqn:Hex;
    cbn [negb fst snd Startup.indices].
  - rewrite !Hsame. cbn [negb snd Startup.indices].
    repeat split; auto. intros r e Hr. now rewrite Hr.
  - rewrite !Hnow. cbn [negb snd Startup.indices].
    split; [reflexivity|]. split; [reflexivity|]. split; [discriminate|].
    split; [intros n b H; apply in_or_app; now left|].
    split.
    { intros n b H. apply in_app_or in H as [H|[H|[]]]; [now left|].
      injection H as <- <-. now right. }
    split; [reflexivity|]. intros r e Hr. now rewrite Hr.
Qed.

Lemma create_index_is_idempotent_witness :
  fst (Startup.create_index_with_dynamic_mapping Startup.quiet
         ELASTICSEARCH_INDEX fresh_cluster) = Ret tt /\
  Startup.indices
    (snd (Startup.create_index_with_dynamic_mapping Startup.quiet
            ELASTICSEARCH_INDEX
            (snd (Startup.create_index_with_dynamic_mapping Startup.quiet
                    ELASTICSEARCH_INDEX fresh_cluster))))
  = Startup.indices
      (snd (Startup.create_index_with_dynamic_mapping Startup.quiet
              ELASTICSEARCH_INDEX fresh_cluster)).
Proof.
  pose proof (create_index_is_idempotent ELASTICSEARCH_INDEX fresh_cluster)
    as (H1 & _ & _ & _ & _ & H6 & _).
  exact (conj H1 H6).
Defined.
